(** * Diamond Pink transformer: locomotion, part animation and mode state

    A shallow embedding of the per-frame logic of the car / flight / robot
    demo:

    - [App]               the mode / door state of the [App] component,
    - [VehicleController] the locomotion callback registered with [useFrame],
    - [TransformerPart]   the per-part pose callback and the part table of
                          [CarAssembly].

    JavaScript numbers are modelled as exact rationals ([Q]): every
    arithmetic operation of the source is the corresponding exact operation,
    so rounding, infinities and NaN of IEEE doubles are outside the model.
    The particle count is the exception: it takes a floor, so its products
    are rounded to doubles ([Double]) and [NaN] is modelled ([Sparkles]).
    Functions of three.js and of the JavaScript runtime that the code calls
    are either written out from their library definition ([Three]) or taken
    as section variables (quaternions, [Math.sin], [Math.cos]). *)

From Stdlib Require Import QArith Qabs Qminmax Qround Qpower Lqa Lia ZArith.
From Stdlib Require Import Bool String List.
Import ListNotations.

Open Scope string_scope.
Open Scope Q_scope.

(** ** JavaScript runtime helpers *)

Module JS.

(** [Math.PI]: the double nearest to pi, as an exact fraction. *)
Definition Math_PI : Q := 884279719003555 # 281474976710656.

(** [s.includes(sub)] *)
Definition includes (s sub : string) : bool :=
  match String.index 0 sub s with
  | Some _ => true
  | None => false
  end.

(** [a > b] and [a >= b] on numbers. *)
Definition gt (a b : Q) : bool := negb (Qle_bool a b).
Definition ge (a b : Q) : bool := Qle_bool b a.

(** [x || y] where [x] is an optional (possibly [undefined]) object. *)
Definition orElse {A : Type} (x : option A) (y : A) : A :=
  match x with
  | Some v => v
  | None => y
  end.

End JS.

(** ** three.js: vectors, Euler angles, interpolation *)

Module Three.

Record Vector3 : Type := mkVector3 { x : Q; y : Q; z : Q }.

Record Euler : Type := mkEuler { ex : Q; ey : Q; ez : Q }.

(** A JavaScript array literal [[a, b, c]]. *)
Definition Array3 : Type := (Q * Q * Q)%type.

(** [new THREE.Vector3().fromArray(a)] *)
Definition fromArray (a : Array3) : Vector3 :=
  let '(a0, a1, a2) := a in mkVector3 a0 a1 a2.

(** [new THREE.Euler(...a)] *)
Definition eulerOf (a : Array3) : Euler :=
  let '(a0, a1, a2) := a in mkEuler a0 a1 a2.

(** [THREE.MathUtils.lerp(x, y, t)]: [(1 - t) * x + t * y]. *)
Definition lerp (x y t : Q) : Q := (1 - t) * x + t * y.

(** [this.lerp(v, alpha)]: each coordinate [c] becomes
    [c + (v.c - c) * alpha]; [alpha] is not clamped. *)
Definition Vector3_lerp (this v : Vector3) (alpha : Q) : Vector3 :=
  mkVector3 (x this + (x v - x this) * alpha)
            (y this + (y v - y this) * alpha)
            (z this + (z v - z this) * alpha).

(** [a.clone().add(b)] *)
Definition Vector3_add (a b : Vector3) : Vector3 :=
  mkVector3 (x a + x b) (y a + y b) (z a + z b).

(** [a.distanceToSquared(b)] *)
Definition distanceToSquared (a b : Vector3) : Q :=
  let dx := x a - x b in
  let dy := y a - y b in
  let dz := z a - z b in
  dx * dx + dy * dy + dz * dz.

(** Coordinate-wise equality of vectors as rationals. *)
Definition Vector3_eq (a b : Vector3) : Prop :=
  x a == x b /\ y a == y b /\ z a == z b.

(** [c] lies in the closed interval spanned by [a] and [b]. *)
Definition between (a b c : Q) : Prop :=
  Qmin a b <= c <= Qmax a b.

End Three.

(** ** App: mode and door state (part_000, [App]) *)

Module App.

Inductive Mode : Type := car | flight | robot.

Definition Mode_eqb (a b : Mode) : bool :=
  match a, b with
  | car, car | flight, flight | robot, robot => true
  | _, _ => false
  end.

(** The two [useState] cells of [App]. *)
Record State : Type := mkState { mode : Mode; doorOpen : bool }.

Definition initial : State := mkState car false.

Definition toggleTransform (s : State) : State :=
  {| mode := (fun prev => if Mode_eqb prev robot then car else robot) (mode s);
     doorOpen := false |}.

Definition toggleFlight (s : State) : State :=
  {| mode := (fun prev => if Mode_eqb prev flight then car else flight) (mode s);
     doorOpen := false |}.

Definition toggleDoor (s : State) : State :=
  if Mode_eqb (mode s) car
  then {| mode := mode s; doorOpen := (fun prev => negb prev) (doorOpen s) |}
  else s.

(** The three click handlers wired to the buttons. *)
Inductive Command : Type := ToggleRobot | ToggleFlight | ToggleDoor.

Definition dispatch (c : Command) (s : State) : State :=
  match c with
  | ToggleRobot => toggleTransform s
  | ToggleFlight => toggleFlight s
  | ToggleDoor => toggleDoor s
  end.

(** The state after a sequence of clicks, oldest first. *)
Definition run (cs : list Command) (s : State) : State :=
  fold_left (fun st c => dispatch c st) cs s.

Inductive reachable : State -> Prop :=
| reach_initial : reachable initial
| reach_step : forall s c, reachable s -> reachable (dispatch c s).

End App.

(** ** types.ts *)

Module Types.

Record PartProps : Type := mkPartProps {
  isRobot : bool;
  isFlight : bool;
  doorOpen : bool;
  speed : Q;
  wheelRotation : Q;
  time : Q
}.

End Types.

(** ** VehicleController: locomotion (part_000, [VehicleController]) *)

Module VehicleController.
Import Three App.

Record Config : Type := mkConfig {
  acceleration : Q;
  deceleration : Q;
  maxSpeed : Q;
  turnSpeed : Q;
  liftSpeed : Q
}.

Definition CONTROLS_CONFIG : Config :=
  {| acceleration := 0.02;
     deceleration := 0.95;
     maxSpeed := 0.8;
     turnSpeed := 0.04;
     liftSpeed := 0.1 |}.

(** [keys.current]: key code to held flag; a code never pressed reads as
    [undefined], which every use treats as false. *)
Definition Keys : Type := string -> bool.

Definition noKeys : Keys := fun _ => false.

Definition handleDown (code : string) (keys : Keys) : Keys :=
  fun c => if String.eqb c code then true else keys c.

Definition handleUp (code : string) (keys : Keys) : Keys :=
  fun c => if String.eqb c code then false else keys c.

Definition isMovingForward (keys : Keys) : bool := keys "ArrowUp" || keys "KeyW".
Definition isMovingBackward (keys : Keys) : bool := keys "ArrowDown" || keys "KeyS".
Definition isTurningLeft (keys : Keys) : bool := keys "ArrowLeft" || keys "KeyA".
Definition isTurningRight (keys : Keys) : bool := keys "ArrowRight" || keys "KeyD".

Definition isRobot (mode : Mode) : bool := Mode_eqb mode robot.
Definition isFlight (mode : Mode) : bool := Mode_eqb mode flight.

(** *** 1. Acceleration *)

Definition currentAccel (mode : Mode) : Q :=
  if isRobot mode then acceleration CONTROLS_CONFIG * 0.5
  else acceleration CONTROLS_CONFIG.

Definition currentMaxSpeed (mode : Mode) : Q :=
  if isFlight mode then maxSpeed CONTROLS_CONFIG * 1.5
  else if isRobot mode then maxSpeed CONTROLS_CONFIG * 0.4
  else maxSpeed CONTROLS_CONFIG.

(** The interval the two clamps of the velocity update aim at. *)
Definition inSpeedRange (mode : Mode) (v : Q) : Prop :=
  - 0.5 * currentMaxSpeed mode <= v <= currentMaxSpeed mode.

(** The new value of [velocity.current]. *)
Definition velocityStep (mode : Mode) (keys : Keys) (velocity : Q) : Q :=
  if isMovingForward keys
  then Qmin (velocity + currentAccel mode) (currentMaxSpeed mode)
  else if isMovingBackward keys
  then Qmax (velocity - currentAccel mode) (- currentMaxSpeed mode * 0.5)
  else velocity * deceleration CONTROLS_CONFIG.

(** *** 2. Steering; [velocity] is the value just written by step 1. *)

Definition steerEffect (mode : Mode) (velocity : Q) : Q :=
  if isFlight mode || isRobot mode || JS.gt (Qabs velocity) 0.01
  then (if JS.ge velocity 0 then 1 else -1)
  else 0.

Definition currentTurnSpeed (mode : Mode) : Q :=
  if isFlight mode then turnSpeed CONTROLS_CONFIG * 1.2
  else if isRobot mode then turnSpeed CONTROLS_CONFIG * 0.8
  else turnSpeed CONTROLS_CONFIG.

(** The new value of [rotY.current]. *)
Definition headingStep (mode : Mode) (keys : Keys) (velocity rotY : Q) : Q :=
  let rotY1 :=
    if isTurningLeft keys
    then rotY + currentTurnSpeed mode * steerEffect mode velocity
    else rotY in
  if isTurningRight keys
  then rotY1 - currentTurnSpeed mode * steerEffect mode velocity
  else rotY1.

(** *** 3. Banking and height *)

Definition targetBanking (mode : Mode) (keys : Keys) : Q :=
  if isFlight mode
  then (if isTurningLeft keys then 0.4
        else if isTurningRight keys then -0.4
        else 0)
  else 0.

(** The new value of [banking.current]. *)
Definition bankingStep (mode : Mode) (keys : Keys) (banking : Q) : Q :=
  lerp banking (targetBanking mode keys) 0.1.

(** Bank angle after [n] frames with the same mode and keys. *)
Fixpoint bankingRun (n : nat) (mode : Mode) (keys : Keys) (banking : Q) : Q :=
  match n with
  | O => banking
  | S k => bankingStep mode keys (bankingRun k mode keys banking)
  end.

(** Velocity after a run of frames, oldest first; each frame has its own
    mode and held keys. *)
Fixpoint velocityRun (frames : list (Mode * Keys)) (velocity : Q) : Q :=
  match frames with
  | [] => velocity
  | (mode, keys) :: rest => velocityRun rest (velocityStep mode keys velocity)
  end.

(** No movement key is held. *)
Definition coasting (keys : Keys) : bool :=
  negb (isMovingForward keys) && negb (isMovingBackward keys).

(** A frame of a run in which no movement key is held. *)
Definition coastingFrame (f : Mode * Keys) : Prop := coasting (snd f) = true.

(** *** The whole callback *)

Record Refs : Type := mkRefs {
  velocity : Q;
  rotY : Q;
  height : Q;
  banking : Q;
  wheelRot : Q;
  worldPos : Vector3
}.

Definition initialRefs : Refs :=
  mkRefs 0 0 0 0 0 (mkVector3 0 0 0).

(** The [<group>] written by the callback. *)
Record Group : Type := mkGroup { position : Vector3; rotation : Euler }.

(** The orbit controls, of which only [target] is written. *)
Record Controls : Type := mkControls { target : Vector3 }.

Record Scene : Type := mkScene {
  refs : Refs;
  groupRef : option Group;
  controlsRef : option Controls
}.

Section Frame.
Variable Math_sin : Q -> Q.
Variable Math_cos : Q -> Q.

Definition targetHeight (mode : Mode) (elapsedTime : Q) : Q :=
  if isFlight mode then 4.0 + Math_sin (elapsedTime * 2) * 0.3 else 0.

(** [useFrame((state, delta) => ...)]; [elapsedTime] is
    [state.clock.elapsedTime]; [delta] is not read. *)
Definition useFrame (mode : Mode) (keys : Keys) (elapsedTime : Q)
           (s : Scene) : Scene :=
  match groupRef s with
  | None => s
  | Some _ =>
    let r := refs s in
    let velocity1 := velocityStep mode keys (velocity r) in
    let rotY1 := headingStep mode keys velocity1 (rotY r) in
    let banking1 := bankingStep mode keys (banking r) in
    let height1 := lerp (height r) (targetHeight mode elapsedTime) 0.05 in
    let moveX := Math_sin rotY1 * velocity1 in
    let moveZ := Math_cos rotY1 * velocity1 in
    let worldPos1 :=
      mkVector3 (x (worldPos r) + moveX) height1 (z (worldPos r) + moveZ) in
    let group1 := mkGroup worldPos1 (mkEuler banking1 rotY1 0) in
    let wheelRot1 := wheelRot r + velocity1 * 3 in
    let controls1 :=
      match controlsRef s with
      | Some c =>
        let targetPoint :=
          Vector3_add worldPos1
            (mkVector3 0 (if isRobot mode then 3.0 else 0.8) 0) in
        Some (mkControls (Vector3_lerp (target c) targetPoint 0.1))
      | None => None
      end in
    {| refs := mkRefs velocity1 rotY1 height1 banking1 wheelRot1 worldPos1;
       groupRef := Some group1;
       controlsRef := controls1 |}
  end.

(** The props handed to [CarAssembly] when the component renders;
    [now] is [Date.now() / 1000]. *)
Definition render (s : App.State) (r : Refs) (now : Q) : Types.PartProps :=
  {| Types.isRobot := Mode_eqb (App.mode s) robot;
     Types.isFlight := Mode_eqb (App.mode s) flight;
     Types.doorOpen := App.doorOpen s;
     Types.wheelRotation := wheelRot r;
     Types.speed := velocity r;
     Types.time := now |}.

End Frame.

End VehicleController.

(** ** TransformerPart and CarAssembly (part_001) *)

Module TransformerPart.
Import Three.

(** The props read by the frame callback.  [geometryType], [dims],
    [color] and [opacity] only feed the mesh and the particle cloud and are
    left out; [speed] is accepted but never destructured.  [wheelRotation]
    and [time] are optional with default [0]. *)
Record Props : Type := mkProps {
  partType : string;
  carPos : Array3;
  carRot : Array3;
  robotPos : Array3;
  robotRot : Array3;
  flightPos : option Array3;
  flightRot : option Array3;
  isRobot : bool;
  isFlight : bool;
  doorOpen : bool;
  wheelRotation : option Q;
  time : option Q
}.

Definition lerpSpeed (delta : Q) : Q := 4 * delta.

(** *** Target position *)

Definition targetP (p : Props) : Vector3 :=
  let targetP0 := fromArray (carPos p) in
  if isRobot p then fromArray (robotPos p)
  else if isFlight p then fromArray (JS.orElse (flightPos p) (carPos p))
  else targetP0.

(** The new value of [groupRef.current.position]. *)
Definition positionStep (p : Props) (delta : Q) (position : Vector3) : Vector3 :=
  Vector3_lerp position (targetP p) (lerpSpeed delta).

(** *** Target rotation: the Euler angles that [qBase] is set from. *)

Definition baseEuler (p : Props) : Euler :=
  let e0 := eulerOf (carRot p) in
  if isRobot p then eulerOf (robotRot p)
  else if isFlight p then eulerOf (JS.orElse (flightRot p) (carRot p))
  else e0.

(** *** Secondary motion

    What the callback does to [dynamicQ], tagged by the branch that did it:
    [Identity] is the fresh [new THREE.Quaternion()] left alone, the other
    three carry the Euler angles passed to [setFromEuler]. *)
Inductive Secondary : Type :=
| Identity
| Flap (e : Euler)
| ScissorOpen (e : Euler)
| WheelSpin (e : Euler).

Definition isFlap (d : Secondary) : bool :=
  match d with Flap _ => true | _ => false end.
Definition isScissorOpen (d : Secondary) : bool :=
  match d with ScissorOpen _ => true | _ => false end.
Definition isWheelSpin (d : Secondary) : bool :=
  match d with WheelSpin _ => true | _ => false end.

Section Motion.
Variable Math_sin : Q -> Q.

Definition dynamicMotion (p : Props) : Secondary :=
  let wheelRotation := JS.orElse (wheelRotation p) 0 in
  let time := JS.orElse (time p) 0 in
  let d0 := Identity in
  let d1 :=
    if JS.includes (partType p) "door" then
      if isFlight p then
        let flap := Math_sin (time * 10) * 0.8 in
        let dl :=
          if String.eqb (partType p) "door_left"
          then Flap (mkEuler 0 0 (JS.Math_PI / 4 + flap)) else d0 in
        if String.eqb (partType p) "door_right"
        then Flap (mkEuler 0 0 (- JS.Math_PI / 4 - flap)) else dl
      else if doorOpen p then
        let dl :=
          if String.eqb (partType p) "door_left"
          then ScissorOpen (mkEuler 0 0 (JS.Math_PI / 2.2)) else d0 in
        if String.eqb (partType p) "door_right"
        then ScissorOpen (mkEuler 0 0 (- JS.Math_PI / 2.2)) else dl
      else d0
    else d0 in
  if String.eqb (partType p) "wheel" then
    if negb (isRobot p)
    then WheelSpin (mkEuler wheelRotation 0 0)
    else d1
  else d1.

(** *** The whole callback, over an abstract quaternion type *)

Variable Quaternion : Type.
Variable identityQ : Quaternion.
Variable setFromEuler : Euler -> Quaternion.
Variable multiply : Quaternion -> Quaternion -> Quaternion.
Variable slerp : Quaternion -> Quaternion -> Q -> Quaternion.

Record Group : Type := mkGroup { position : Vector3; quaternion : Quaternion }.

Definition dynamicQ (p : Props) : Quaternion :=
  match dynamicMotion p with
  | Identity => identityQ
  | Flap e | ScissorOpen e | WheelSpin e => setFromEuler e
  end.

Definition targetQ (p : Props) : Quaternion :=
  multiply (setFromEuler (baseEuler p)) (dynamicQ p).

(** [useFrame((state, delta) => ...)]; the two shader uniforms written
    at the end do not feed back into the pose and are left out. *)
Definition useFrame (p : Props) (delta : Q) (groupRef : option Group)
  : option Group :=
  match groupRef with
  | None => None
  | Some g =>
    Some {| position := positionStep p delta (position g);
            quaternion := slerp (quaternion g) (targetQ p) (lerpSpeed delta) |}
  end.

End Motion.

(** *** The part table

    Each part of [DiamondDriver] and [CarAssembly] with the props it is
    given, in the order of the source. *)

Definition driver_head (isRobot isFlight : bool) : Props :=
  mkProps "driver_head"
    (0, 0.95, -0.3) (0, 0, 0)
    (0, 4.4, 0.4) (0, 0, 0)
    (Some (0, 0.95, -0.3)) (Some (0, 0, 0))
    isRobot isFlight false None None.

Definition driver_body (isRobot isFlight : bool) : Props :=
  mkProps "driver_body"
    (0, 0.7, -0.3) (0.3, 0, 0)
    (0, 4.1, 0.4) (0, 0, 0)
    (Some (0, 0.7, -0.3)) (Some (0.3, 0, 0))
    isRobot isFlight false None None.

Definition DiamondDriver (isRobot isFlight : bool) : list Props :=
  [ driver_head isRobot isFlight; driver_body isRobot isFlight ].

Definition torso (isRobot isFlight doorOpen : bool) : Props :=
  mkProps "torso"
    (0, 0.7, 0.1) (0, 0, 0)
    (0, 4.0, 0) (0, 0, 0)
    (Some (0, 0.7, 0.1)) (Some (0, 0, 0))
    isRobot isFlight doorOpen None None.

Definition head (isRobot isFlight doorOpen : bool) : Props :=
  mkProps "head"
    (0, 0.7, 0.5) (0, 0, 0)
    (0, 5.5, 0) (0, 0, 0)
    (Some (0, 0.6, 0.5)) (Some (0, 0, 0))
    isRobot isFlight doorOpen None None.

Definition door_left (isRobot isFlight doorOpen : bool) (time : Q) : Props :=
  mkProps "door_left"
    (1.2, 0.9, -0.6) (0, 0, 0)
    (1.5, 4.8, -1.0) (0, -0.4, 1.4)
    (Some (1.2, 1.0, -0.6)) (Some (0, 0, 0.3))
    isRobot isFlight doorOpen None (Some time).

Definition door_right (isRobot isFlight doorOpen : bool) (time : Q) : Props :=
  mkProps "door_right"
    (-1.2, 0.9, -0.6) (0, 0, 0)
    (-1.5, 4.8, -1.0) (0, 0.4, -1.4)
    (Some (-1.2, 1.0, -0.6)) (Some (0, 0, -0.3))
    isRobot isFlight doorOpen None (Some time).

(** The body of the [.map((pos, i) => ...)] that makes the four wheels. *)
Definition wheel (isRobot isFlight doorOpen : bool) (wheelRotation : Q)
           (pos : Array3) (i : nat) : Props :=
  let '(pos0, pos1, pos2) := pos in
  mkProps "wheel"
    pos (0, 0, JS.Math_PI / 2)
    (if Nat.eqb (i mod 2) 0 then 2.5 else -2.5,
     if Nat.ltb i 2 then 4.8 else 0.4, 0)
    (0, 0, JS.Math_PI / 2)
    (Some (pos0 * 0.9, pos1 + 0.2, pos2))
    (Some (JS.Math_PI / 2, 0, JS.Math_PI / 2))
    isRobot isFlight doorOpen (Some wheelRotation) None.

Fixpoint mapi {A B : Type} (f : A -> nat -> B) (i : nat) (l : list A) : list B :=
  match l with
  | [] => []
  | a :: rest => f a i :: mapi f (S i) rest
  end.

Definition waist (isRobot isFlight doorOpen : bool) : Props :=
  mkProps "waist"
    (0, 0.4, -0.2) (0, 0, 0)
    (0, 2.8, 0) (0, 0, 0)
    (Some (0, 0.35, -0.2)) (Some (0, 0, 0))
    isRobot isFlight doorOpen None None.

Definition leg_l (isRobot isFlight doorOpen : bool) : Props :=
  mkProps "leg_l"
    (0.5, 0.4, -1.5) (0, 0, 0)
    (0.7, 1.2, 0) (0, 0, 0)
    (Some (0.5, 0.4, -1.5)) (Some (0, 0, 0))
    isRobot isFlight doorOpen None None.

Definition leg_r (isRobot isFlight doorOpen : bool) : Props :=
  mkProps "leg_r"
    (-0.5, 0.4, -1.5) (0, 0, 0)
    (-0.7, 1.2, 0) (0, 0, 0)
    (Some (-0.5, 0.4, -1.5)) (Some (0, 0, 0))
    isRobot isFlight doorOpen None None.

Definition CarAssembly (pp : Types.PartProps) : list Props :=
  let isRobot := Types.isRobot pp in
  let isFlight := Types.isFlight pp in
  let doorOpen := Types.doorOpen pp in
  let wheelRotation := Types.wheelRotation pp in
  let time := Types.time pp in
  (DiamondDriver isRobot isFlight ++
   [ torso isRobot isFlight doorOpen;
     head isRobot isFlight doorOpen;
     door_left isRobot isFlight doorOpen time;
     door_right isRobot isFlight doorOpen time ] ++
   mapi (wheel isRobot isFlight doorOpen wheelRotation) 0%nat
     [ (1.3, 0.45, 1.8); (-1.3, 0.45, 1.8); (1.3, 0.45, -1.8); (-1.3, 0.45, -1.8) ] ++
   [ waist isRobot isFlight doorOpen;
     leg_l isRobot isFlight doorOpen;
     leg_r isRobot isFlight doorOpen ])%list.

End TransformerPart.

(** ** App: what the page shows (part_000, the JSX of [App]) *)

Module AppView.
Import App.

(** The text under the title. *)
Definition subtitle (s : State) : string :=
  if Mode_eqb (mode s) robot then "Guardian Unit"
  else if Mode_eqb (mode s) flight then "Aero Interceptor"
  else "Supercar Core".

(** The door button: rendered only under [mode === 'car'], with its label;
    [None] when it is not rendered. *)
Definition doorButton (s : State) : option string :=
  if Mode_eqb (mode s) car
  then Some (if doorOpen s then "Seal Doors" else "Deploy Wings")
  else None.

End AppView.

(** ** Runs of frames *)

Module Session.
Import Three App VehicleController.

(** What one animation frame of the vehicle reads from outside: the mode
    prop of the last render, the held keys and the clock. *)
Record Frame : Type := mkFrame {
  frameMode : Mode;
  frameKeys : Keys;
  frameClock : Q
}.

Section Run.
Variable Math_sin : Q -> Q.
Variable Math_cos : Q -> Q.

(** The locomotion callback over successive frames, oldest first. *)
Fixpoint runFrames (frames : list Frame) (s : Scene) : Scene :=
  match frames with
  | [] => s
  | f :: rest =>
    runFrames rest
      (useFrame Math_sin Math_cos (frameMode f) (frameKeys f) (frameClock f) s)
  end.

End Run.

(** The position of one part over successive frames with the given
    [delta]s, oldest first, the props staying the same. *)
Fixpoint positionRun (p : TransformerPart.Props) (deltas : list Q)
         (position : Vector3) : Vector3 :=
  match deltas with
  | [] => position
  | delta :: rest =>
    positionRun p rest (TransformerPart.positionStep p delta position)
  end.

(** The product of [1 - 4 * delta] over the frames. *)
Fixpoint remaining (deltas : list Q) : Q :=
  match deltas with
  | [] => 1
  | delta :: rest => (1 - 4 * delta) * remaining rest
  end.

(** The Euler angles handed to [dynamicQ.setFromEuler], if it is called. *)
Definition motionEuler (d : TransformerPart.Secondary) : option Euler :=
  match d with
  | TransformerPart.Identity => None
  | TransformerPart.Flap e
  | TransformerPart.ScissorOpen e
  | TransformerPart.WheelSpin e => Some e
  end.

(** The pose entry of a part that belongs to a mode. *)
Definition poseFor (m : Mode) (p : TransformerPart.Props) : Array3 * Array3 :=
  match m with
  | car => (TransformerPart.carPos p, TransformerPart.carRot p)
  | robot => (TransformerPart.robotPos p, TransformerPart.robotRot p)
  | flight =>
    (JS.orElse (TransformerPart.flightPos p) (TransformerPart.carPos p),
     JS.orElse (TransformerPart.flightRot p) (TransformerPart.carRot p))
  end.

(** The bounds the attitude of the vehicle is kept in. *)
Definition attitudeEnvelope (r : Refs) : Prop :=
  Qabs (banking r) <= 0.4 /\ 0 <= height r <= 4.3.

(** A keyboard event with its [e.code], as delivered to the two listeners
    installed by [useEffect]. *)
Inductive KeyEvent : Type :=
| keydown (code : string)
| keyup (code : string).

Definition handle (e : KeyEvent) (keys : Keys) : Keys :=
  match e with
  | keydown code => handleDown code keys
  | keyup code => handleUp code keys
  end.

(** The key map after a sequence of events, oldest first. *)
Definition applyEvents (events : list KeyEvent) (keys : Keys) : Keys :=
  fold_left (fun k e => handle e k) events keys.

(** Whether the last event about [code] was a press; [None] when no event
    mentions [code]. *)
Fixpoint lastEvent (code : string) (events : list KeyEvent) : option bool :=
  match events with
  | [] => None
  | e :: rest =>
    match lastEvent code rest with
    | Some b => Some b
    | None =>
      match e with
      | keydown c => if String.eqb code c then Some true else None
      | keyup c => if String.eqb code c then Some false else None
      end
    end
  end.

(** Two rational functions with [s * s + c * c == 1] and values in
    [-1, 1], used where an instance of the runtime's sine and cosine is
    needed to evaluate a frame. *)
Definition circleSin (t : Q) : Q := (2 * t) / (1 + t * t).
Definition circleCos (t : Q) : Q := (1 - t * t) / (1 + t * t).

(** The eight key codes the callback reads. *)
Definition boundCodes : list string :=
  [ "ArrowUp"; "KeyW"; "ArrowDown"; "KeyS";
    "ArrowLeft"; "KeyA"; "ArrowRight"; "KeyD" ].

End Session.

(** ** IEEE doubles: rounding to the nearest double

    Used where the code takes [Math.floor] of a product, so that the last
    bit of the product decides an integer.  Magnitudes are assumed in the
    normal range of doubles (no overflow to infinity, no subnormals). *)

Module Double.

(** [floor(log2(n / d))] *)
Definition ilog2 (n d : positive) : Z :=
  let k := (Z.log2 (Z.pos n) - Z.log2 (Z.pos d))%Z in
  if (0 <=? k)%Z
  then (if (Z.pos d * 2 ^ k <=? Z.pos n)%Z then k else k - 1)%Z
  else (if (Z.pos d <=? Z.pos n * 2 ^ (- k))%Z then k else k - 1)%Z.

(** [num / den] rounded to the nearest integer, ties to even. *)
Definition roundHalfEven (num den : Z) : Z :=
  let m := (num / den)%Z in
  match (2 * (num mod den) ?= den)%Z with
  | Lt => m
  | Gt => (m + 1)%Z
  | Eq => if Z.even m then m else (m + 1)%Z
  end.

(** The double nearest to [n / d]: a 53-bit significand times a power of
    two. *)
Definition nearest (n d : positive) : Q :=
  let e := (ilog2 n d - 52)%Z in
  let m :=
    if (0 <=? e)%Z
    then roundHalfEven (Z.pos n) (Z.pos d * 2 ^ e)
    else roundHalfEven (Z.pos n * 2 ^ (- e)) (Z.pos d) in
  inject_Z m * 2 ^ e.

(** The double nearest to [q], ties to even. *)
Definition round (q : Q) : Q :=
  match Qnum q with
  | Z0 => 0
  | Z.pos n => nearest n (Qden q)
  | Z.neg n => - nearest n (Qden q)
  end.

End Double.

(** ** Particle layout (part_001, the [useMemo] of [TransformerPart]) *)

Module Sparkles.

(** A number that may be [NaN] ([None]).  An index past the end of [dims]
    reads [undefined], which is falsy under [||] and [NaN] in arithmetic,
    as [NaN] itself is; both are [None] here. *)
Definition Num : Type := option Q.

Definition at_ (dims : list Q) (i : nat) : Num := nth_error dims i.

Definition mul (a b : Num) : Num :=
  match a, b with
  | Some u, Some v => Some (u * v)
  | _, _ => None
  end.

(** [a || b] on numbers: [b] when [a] is [undefined], [NaN] or [0]. *)
Definition or_ (a b : Num) : Num :=
  match a with
  | Some u => if Qeq_bool u 0 then b else a
  | None => b
  end.

(** The double that an entry of [dims] is at run time. *)
Definition double (a : Num) : Num :=
  match a with
  | Some u => Some (Double.round u)
  | None => None
  end.

(** [a * b] on doubles: the exact product rounded to the nearest double. *)
Definition fmul (a b : Num) : Num := double (mul a b).

(** [Math.floor(dims[0] * dims[1] * (dims[2] || dims[0]) * 800) + 150],
    each product rounded as the doubles are; [None] is [NaN]. *)
Definition count (dims : list Q) : option Z :=
  match fmul (fmul (fmul (double (at_ dims 0)) (double (at_ dims 1)))
                   (or_ (double (at_ dims 2)) (double (at_ dims 0))))
             (Some 800) with
  | Some q => Some (Qfloor q + 150)%Z
  | None => None
  end.

(** The length of [new Float32Array(n)]: [NaN] converts to length 0 and a
    negative length throws a [RangeError] ([None]). *)
Definition Float32Array_length (n : option Z) : option nat :=
  match n with
  | None => Some 0%nat
  | Some k => if (k <? 0)%Z then None else Some (Z.to_nat k)
  end.

(** [count * 3] *)
Definition times3 (n : option Z) : option Z :=
  match n with
  | Some k => Some (k * 3)%Z
  | None => None
  end.

(** How many times the body of [for (let i = 0; i < count; i++)] runs. *)
Definition iterations (n : option Z) : nat :=
  match n with
  | Some k => Z.to_nat k
  | None => 0%nat
  end.

(** The lengths of [positions] and [randomScales]; [None] when either
    constructor throws. *)
Definition bufferLengths (dims : list Q) : option (nat * nat) :=
  match Float32Array_length (times3 (count dims)),
        Float32Array_length (count dims) with
  | Some a, Some b => Some (a, b)
  | _, _ => None
  end.

Section Layout.
Variable Math_sin : Q -> Q.
Variable Math_cos : Q -> Q.

(** The three coordinates written for one particle, from the three values
    of [Math.random()] drawn for [theta], [r] and [h] in that order. *)
Definition particle (dims : list Q) (u_theta u_r u_h : Q) : Num * Num * Num :=
  let theta := u_theta * JS.Math_PI * 2 in
  let r := mul (mul (Some u_r) (at_ dims 0)) (Some 0.5) in
  let h := mul (Some (u_h - 0.5)) (or_ (at_ dims 1) (at_ dims 0)) in
  (mul r (Some (Math_sin theta)), h, mul r (Some (Math_cos theta))).

End Layout.

End Sparkles.

(** ** SparkleMaterial.tsx: the vertex shader *)

Module SparkleMaterial.

Section Shader.
Variable sin : Q -> Q.

Definition twinkle (time randomScale : Q) : Q :=
  sin (time * 5.0 + randomScale * 10.0) * 0.5 + 0.5.

(** [gl_PointSize]; [mvz] is [mvPosition.z]. *)
Definition pointSize (size pixelRatio time randomScale mvz : Q) : Q :=
  size * pixelRatio * (1.0 + twinkle time randomScale) * (30.0 / - mvz).

Definition vAlpha (time randomScale : Q) : Q :=
  0.6 + 0.4 * twinkle time randomScale.

End Shader.

End SparkleMaterial.

(** Projects record fields without unfolding any arithmetic. *)
Ltac project_fields :=
  cbn [VehicleController.refs VehicleController.groupRef
       VehicleController.controlsRef VehicleController.velocity
       VehicleController.rotY VehicleController.height
       VehicleController.banking VehicleController.wheelRot
       VehicleController.worldPos VehicleController.target
       Three.x Three.y Three.z].

(** * Properties *)

(** ** Mode and door state machine *)

Section AppFacts.
Import App.

Lemma Mode_eqb_eq (a b : Mode) : Mode_eqb a b = true <-> a = b.
Proof. destruct a, b; simpl; split; congruence. Qed.

Lemma Mode_eqb_neq (a b : Mode) : Mode_eqb a b = false <-> a <> b.
Proof. destruct a, b; simpl; split; congruence. Qed.

(** Every toggle of the mode clears the door flag, whatever the modes. *)
Lemma toggleTransform_closes (s : State) : doorOpen (toggleTransform s) = false.
Proof. reflexivity. Qed.

Lemma toggleFlight_closes (s : State) : doorOpen (toggleFlight s) = false.
Proof. reflexivity. Qed.

Lemma toggleDoor_mode (s : State) : mode (toggleDoor s) = mode s.
Proof. unfold toggleDoor. destruct (Mode_eqb (mode s) car); reflexivity. Qed.

Lemma run_app (cs1 cs2 : list Command) (s : State) :
  run (cs1 ++ cs2)%list s = run cs2 (run cs1 s).
Proof. unfold run. apply fold_left_app. Qed.

Lemma run_reachable_from (cs : list Command) :
  forall s, reachable s -> reachable (run cs s).
Proof.
  induction cs as [|c cs IH]; intros s Hs; simpl.
  - exact Hs.
  - apply IH. apply reach_step. exact Hs.
Qed.

Lemma run_reachable (cs : list Command) : reachable (run cs initial).
Proof. apply run_reachable_from. apply reach_initial. Qed.

Lemma reachable_run (s : State) :
  reachable s -> exists cs, s = run cs initial.
Proof.
  induction 1 as [|s c _ [cs ->]].
  - exists []. reflexivity.
  - exists (cs ++ [c])%list. rewrite run_app. reflexivity.
Qed.

(** The door flag after one command, when the mode after it is not car. *)
Lemma dispatch_closed_outside_car (c : Command) (s : State) :
  (mode s <> car -> doorOpen s = false) ->
  mode (dispatch c s) <> car -> doorOpen (dispatch c s) = false.
Proof.
  intros Inv Hm. destruct c; simpl in *.
  - reflexivity.
  - reflexivity.
  - rewrite toggleDoor_mode in Hm.
    unfold toggleDoor.
    destruct (Mode_eqb (mode s) car) eqn:E.
    + apply Mode_eqb_eq in E. contradiction.
    + apply Inv. exact Hm.
Qed.

End AppFacts.

(** C4. [toggleTransform] sends car and flight to robot and robot to car;
    [toggleFlight] sends car and robot to flight and flight to car; neither
    result depends on the door flag; and whenever a command takes the machine
    from car mode to another mode, the door flag is false afterwards. *)
Theorem toggle_transitions :
  (forall d : bool,
      App.mode (App.toggleTransform (App.mkState App.car d)) = App.robot /\
      App.mode (App.toggleTransform (App.mkState App.flight d)) = App.robot /\
      App.mode (App.toggleTransform (App.mkState App.robot d)) = App.car /\
      App.mode (App.toggleFlight (App.mkState App.car d)) = App.flight /\
      App.mode (App.toggleFlight (App.mkState App.robot d)) = App.flight /\
      App.mode (App.toggleFlight (App.mkState App.flight d)) = App.car) /\
  (forall (c : App.Command) (s : App.State),
      App.mode s = App.car ->
      App.mode (App.dispatch c s) <> App.car ->
      App.doorOpen (App.dispatch c s) = false).
Proof.
  split.
  - intros d. repeat split.
  - intros c s Hcar Hleft. destruct c; simpl in *.
    + reflexivity.
    + reflexivity.
    + rewrite toggleDoor_mode in Hleft. contradiction.
Qed.

Lemma toggle_transitions_witness :
  App.doorOpen (App.dispatch App.ToggleFlight (App.mkState App.car true)) = false.
Proof.
  apply (proj2 toggle_transitions App.ToggleFlight (App.mkState App.car true)).
  - reflexivity.
  - simpl. discriminate.
Defined.

(** C8. [toggleDoor] leaves the whole state (mode and door flag) unchanged
    when the mode is not car, in particular in flight mode, and negates the
    door flag, keeping the mode, when the mode is car. *)
Theorem toggleDoor_gated (s : App.State) :
  (App.mode s <> App.car -> App.toggleDoor s = s) /\
  (App.mode s = App.flight -> App.toggleDoor s = s) /\
  (App.mode s = App.car ->
   App.toggleDoor s = App.mkState App.car (negb (App.doorOpen s))).
Proof.
  unfold App.toggleDoor. destruct s as [m d]; simpl.
  repeat split; intros H; destruct m; simpl; try reflexivity;
    try discriminate; contradiction.
Qed.

Lemma toggleDoor_gated_witness :
  App.toggleDoor (App.mkState App.flight false) = App.mkState App.flight false /\
  App.toggleDoor (App.mkState App.robot true) = App.mkState App.robot true /\
  App.toggleDoor (App.mkState App.car false) = App.mkState App.car true.
Proof.
  split; [|split].
  - apply (proj1 (proj2 (toggleDoor_gated (App.mkState App.flight false)))).
    reflexivity.
  - apply (proj1 (toggleDoor_gated (App.mkState App.robot true))).
    simpl. discriminate.
  - apply (proj2 (proj2 (toggleDoor_gated (App.mkState App.car false)))).
    reflexivity.
Defined.

(** C10. In every state reachable from the initial state (car, door closed)
    by any sequence of ToggleRobot, ToggleFlight and ToggleDoor, a mode other
    than car implies that the door flag is false. *)
Theorem door_open_only_in_car (s : App.State) :
  App.reachable s -> App.mode s <> App.car -> App.doorOpen s = false.
Proof.
  induction 1 as [|s c Hs IH].
  - intros H. exfalso. apply H. reflexivity.
  - apply dispatch_closed_outside_car. exact IH.
Qed.

Lemma door_open_only_in_car_witness :
  App.doorOpen
    (App.run [App.ToggleDoor; App.ToggleRobot; App.ToggleDoor] App.initial) = false.
Proof.
  apply door_open_only_in_car.
  - apply run_reachable.
  - simpl. discriminate.
Defined.

(** ** Locomotion *)

Section VehicleFacts.
Import App VehicleController.

Lemma currentMaxSpeed_pos (mode : Mode) : 0 < currentMaxSpeed mode.
Proof. destruct mode; unfold currentMaxSpeed; simpl; lra. Qed.

Lemma currentAccel_pos (mode : Mode) : 0 < currentAccel mode.
Proof. destruct mode; unfold currentAccel; simpl; lra. Qed.

(** With the forward key held the upper clamp applies, whatever the
    velocity was. *)
Lemma velocityStep_forward_upper (mode : Mode) (keys : Keys) (v : Q) :
  isMovingForward keys = true ->
  velocityStep mode keys v <= currentMaxSpeed mode.
Proof.
  intros F. unfold velocityStep. rewrite F. apply Q.le_min_r.
Qed.

(** With only the backward key held the lower clamp applies. *)
Lemma velocityStep_backward_lower (mode : Mode) (keys : Keys) (v : Q) :
  isMovingForward keys = false -> isMovingBackward keys = true ->
  - 0.5 * currentMaxSpeed mode <= velocityStep mode keys v.
Proof.
  intros F B. unfold velocityStep. rewrite F, B.
  eapply Qle_trans; [|apply Q.le_max_r]. lra.
Qed.

Lemma velocityStep_coasting (mode : Mode) (keys : Keys) (v : Q) :
  coasting keys = true ->
  velocityStep mode keys v = v * deceleration CONTROLS_CONFIG.
Proof.
  unfold coasting, velocityStep. intros C.
  apply andb_true_iff in C. destruct C as [F B].
  apply negb_true_iff in F. apply negb_true_iff in B.
  rewrite F, B. reflexivity.
Qed.

Lemma JS_gt_iff (a b : Q) : JS.gt a b = true <-> b < a.
Proof.
  unfold JS.gt. rewrite negb_true_iff.
  destruct (Qle_bool a b) eqn:E.
  - apply Qle_bool_iff in E. split; [discriminate | intros; lra].
  - split; [intros _ | reflexivity].
    apply Qnot_le_lt. intros L. apply Qle_bool_iff in L. congruence.
Qed.

Lemma JS_ge_iff (a b : Q) : JS.ge a b = true <-> b <= a.
Proof. unfold JS.ge. apply Qle_bool_iff. Qed.

(** The three values the steering factor can take. *)
Lemma steerEffect_cases (mode : Mode) (v : Q) :
  (steerEffect mode v = 0 /\ mode = car /\ Qabs v <= 0.01) \/
  (steerEffect mode v = 1 /\ 0 <= v /\ (mode <> car \/ 0.01 < Qabs v)) \/
  (steerEffect mode v = -1 /\ v < 0 /\ (mode <> car \/ 0.01 < Qabs v)).
Proof.
  unfold steerEffect.
  destruct (JS.gt (Qabs v) 0.01) eqn:G; destruct (JS.ge v 0) eqn:S.
  - apply JS_gt_iff in G. apply JS_ge_iff in S.
    right; left. rewrite orb_true_r. auto.
  - apply JS_gt_iff in G.
    assert (v < 0).
    { apply Qnot_le_lt. intros L. apply JS_ge_iff in L. congruence. }
    right; right. rewrite orb_true_r. auto.
  - apply JS_ge_iff in S.
    assert (Qabs v <= 0.01).
    { apply Qnot_lt_le. intros L. apply JS_gt_iff in L. congruence. }
    destruct mode; simpl.
    + left. auto.
    + right; left. repeat split; auto. left; discriminate.
    + right; left. repeat split; auto. left; discriminate.
  - assert (v < 0).
    { apply Qnot_le_lt. intros L. apply JS_ge_iff in L. congruence. }
    assert (Qabs v <= 0.01).
    { apply Qnot_lt_le. intros L. apply JS_gt_iff in L. congruence. }
    destruct mode; simpl.
    + left. auto.
    + right; right. repeat split; auto. left; discriminate.
    + right; right. repeat split; auto. left; discriminate.
Qed.



Lemma currentTurnSpeed_pos (mode : Mode) : 0 < currentTurnSpeed mode.
Proof. destruct mode; unfold currentTurnSpeed; simpl; lra. Qed.

(** Heading change for each combination of the two turn keys. *)
Lemma headingStep_keys (mode : Mode) (keys : Keys) (v rotY : Q) :
  headingStep mode keys v rotY ==
  rotY
  + (if isTurningLeft keys then currentTurnSpeed mode * steerEffect mode v else 0)
  - (if isTurningRight keys then currentTurnSpeed mode * steerEffect mode v else 0).
Proof.
  unfold headingStep.
  destruct (isTurningLeft keys), (isTurningRight keys); lra.
Qed.

Lemma Qpower_S (q : Q) (n : nat) :
  q ^ Z.of_nat (S n) == q * q ^ Z.of_nat n.
Proof.
  replace (Z.of_nat (S n)) with (1 + Z.of_nat n)%Z by lia.
  rewrite Qpower_plus' by lia. rewrite Qpower_1_r. reflexivity.
Qed.

Lemma bankingStep_gap (mode : Mode) (keys : Keys) (b : Q) :
  bankingStep mode keys b - targetBanking mode keys
  == 0.9 * (b - targetBanking mode keys).
Proof. unfold bankingStep, Three.lerp. lra. Qed.

Lemma velocityRun_app (f1 f2 : list (Mode * Keys)) : forall v,
  velocityRun (f1 ++ f2)%list v = velocityRun f2 (velocityRun f1 v).
Proof.
  induction f1 as [|[m k] f1 IH]; intros v; simpl.
  - reflexivity.
  - apply IH.
Qed.

Lemma velocityRun_coasting (frames : list (Mode * Keys)) : forall v,
  Forall coastingFrame frames ->
  velocityRun frames v == v * 0.95 ^ Z.of_nat (length frames).
Proof.
  induction frames as [|[m k] rest IH]; intros v H.
  - simpl. lra.
  - inversion H as [|? ? Hk Hrest]; subst.
    cbn [velocityRun length]. unfold coastingFrame in Hk; simpl in Hk.
    rewrite (velocityStep_coasting m k v Hk).
    rewrite (IH _ Hrest). rewrite Qpower_S.
    unfold CONTROLS_CONFIG; simpl deceleration. lra.
Qed.

Lemma decay_pos (n : nat) : 0 < 0.95 ^ Z.of_nat n.
Proof. apply Qpower_0_lt. lra. Qed.

Lemma decay_le_1 (n : nat) : 0.95 ^ Z.of_nat n <= 1.
Proof.
  induction n as [|k IH].
  - simpl. lra.
  - rewrite Qpower_S. pose proof (decay_pos k). lra.
Qed.

Lemma decay_lt_1 (n : nat) : (0 < n)%nat -> 0.95 ^ Z.of_nat n < 1.
Proof.
  destruct n as [|k]; [lia|]. intros _.
  rewrite Qpower_S. pose proof (decay_pos k). pose proof (decay_le_1 k). lra.
Qed.

Lemma decay_harmonic (n : nat) :
  0.95 ^ Z.of_nat n * (19 + inject_Z (Z.of_nat n)) <= 19.
Proof.
  induction n as [|k IH].
  - vm_compute. discriminate.
  - rewrite Qpower_S. rewrite Nat2Z.inj_succ. unfold Z.succ.
    rewrite inject_Z_plus.
    pose proof (decay_pos k) as P.
    assert (0 <= inject_Z (Z.of_nat k)) as K.
    { change 0 with (inject_Z 0). rewrite <- Zle_Qle. lia. }
    set (p := 0.95 ^ Z.of_nat k) in *. set (m := inject_Z (Z.of_nat k)) in *.
    change (inject_Z 1) with 1.
    assert (0 <= p * m) by (apply Qmult_le_0_compat; lra).
    lra.
Qed.

Lemma decay_vanishes (a eps : Q) :
  0 <= a -> 0 < eps ->
  exists N : nat, forall n : nat, (N <= n)%nat -> a * 0.95 ^ Z.of_nat n < eps.
Proof.
  intros Ha He.
  exists (Z.to_nat (Qceiling (19 * a / eps))).
  intros n Hn.
  pose proof (Qle_ceiling (19 * a / eps)) as C.
  assert (inject_Z (Qceiling (19 * a / eps)) <= inject_Z (Z.of_nat n)) as L.
  { rewrite <- Zle_Qle. lia. }
  assert (19 * a <= eps * inject_Z (Z.of_nat n)) as B.
  { assert (19 * a == eps * (19 * a / eps)) as -> by (field; lra).
    apply Qmult_le_l; [exact He | lra]. }
  pose proof (decay_pos n) as P. pose proof (decay_harmonic n) as Hh.
  set (p := 0.95 ^ Z.of_nat n) in *. set (m := inject_Z (Z.of_nat n)) in *.
  assert (0 <= m) as M.
  { unfold m. change 0 with (inject_Z 0). rewrite <- Zle_Qle. lia. }
  assert (a * (p * (19 + m)) <= a * 19) as S1.
  { destruct (Qle_lt_or_eq _ _ Ha) as [Hp|Hz].
    - apply Qmult_le_l; assumption.
    - rewrite <- Hz. lra. }
  apply Qnot_le_lt. intros Hc.
  assert (eps * (19 + m) <= (a * p) * (19 + m)) as S2.
  { apply Qmult_le_compat_r; lra. }
  lra.
Qed.


End VehicleFacts.

Section VehicleClaims.
Import App VehicleController.

(** C1 (as the code has it).  The maximum speed is 0.8 in car mode,
    0.8 * 1.5 in flight mode and 0.8 * 0.4 in robot mode, hence positive in
    every mode; and a step taken in a mode, with any keys held, from a
    velocity inside [-0.5 * maxSpeed, maxSpeed] of that mode ends inside
    the same interval. *)
Theorem velocity_step_in_range (mode : Mode) (keys : Keys) (v : Q) :
  inSpeedRange mode v ->
  (currentMaxSpeed car == 0.8 /\
   currentMaxSpeed flight == 0.8 * 1.5 /\
   currentMaxSpeed robot == 0.8 * 0.4) /\
  0 < currentMaxSpeed mode /\
  inSpeedRange mode (velocityStep mode keys v).
Proof.
  intros H. split; [|split].
  - unfold currentMaxSpeed; simpl. repeat split; reflexivity.
  - apply currentMaxSpeed_pos.
  - unfold inSpeedRange in *. unfold velocityStep.
    pose proof (currentMaxSpeed_pos mode) as M.
    pose proof (currentAccel_pos mode) as A.
    destruct (isMovingForward keys); [|destruct (isMovingBackward keys)].
    + destruct (Q.min_spec (v + currentAccel mode) (currentMaxSpeed mode))
        as [[? E]|[? E]]; rewrite E; lra.
    + destruct (Q.max_spec (v - currentAccel mode) (- currentMaxSpeed mode * 0.5))
        as [[? E]|[? E]]; rewrite E; lra.
    + unfold CONTROLS_CONFIG; simpl. lra.
Qed.

Lemma velocity_step_in_range_witness :
  inSpeedRange car (velocityStep car (handleDown "KeyW" noKeys) 0.79).
Proof.
  apply (velocity_step_in_range car (handleDown "KeyW" noKeys) 0.79).
  unfold inSpeedRange, currentMaxSpeed; simpl. lra.
Defined.

(** C1, refuted as stated: the velocity 1.2 is reached in flight mode by
    holding forward for 60 frames from rest; after a switch to robot mode
    the next step without movement keys yields 1.14, above the robot
    maximum 0.32. *)
Lemma velocity_step_leaves_range :
  let cruise := velocityRun (repeat (flight, handleDown "KeyW" noKeys) 60) 0 in
  cruise == 1.2 /\
  ~ inSpeedRange robot (velocityStep robot noKeys cruise).
Proof.
  split.
  - vm_compute. reflexivity.
  - unfold inSpeedRange. intros [_ H]. vm_compute in H. apply H. reflexivity.
Qed.

(** C5 (as the code has it).  The target bank angle is 0 outside flight
    mode; in flight mode it is 0.4 whenever a left key is held (also when
    a right key is held too), -0.4 when only a right key is held and 0 when
    neither is held.  Each frame leaves nine tenths of the gap between the
    bank angle and the target, so after [n] frames with the same target
    the gap is [0.9 ^ n] times the first one, and an angle that differs
    from the target never becomes equal to it in one frame. *)
Theorem banking_target_and_approach (mode : Mode) (keys : Keys) (b : Q) (n : nat) :
  (mode <> flight -> targetBanking mode keys = 0) /\
  (mode = flight -> isTurningLeft keys = true ->
   targetBanking mode keys = 0.4) /\
  (mode = flight -> isTurningLeft keys = false -> isTurningRight keys = true ->
   targetBanking mode keys = -0.4) /\
  (mode = flight -> isTurningLeft keys = false -> isTurningRight keys = false ->
   targetBanking mode keys = 0) /\
  bankingStep mode keys b - targetBanking mode keys
    == 0.9 * (b - targetBanking mode keys) /\
  bankingRun n mode keys b - targetBanking mode keys
    == 0.9 ^ Z.of_nat n * (b - targetBanking mode keys) /\
  (~ b == targetBanking mode keys ->
   ~ bankingStep mode keys b == targetBanking mode keys).
Proof.
  repeat split.
  - intros H. unfold targetBanking. destruct mode; try reflexivity. contradiction.
  - intros -> L. unfold targetBanking. simpl. rewrite L. reflexivity.
  - intros -> L R. unfold targetBanking. simpl. rewrite L, R. reflexivity.
  - intros -> L R. unfold targetBanking. simpl. rewrite L, R. reflexivity.
  - apply bankingStep_gap.
  - induction n as [|k IH].
    + simpl. lra.
    + cbn [bankingRun]. rewrite bankingStep_gap, IH.
      rewrite Qpower_S. lra.
  - intros Hne Heq. apply Hne.
    pose proof (bankingStep_gap mode keys b) as G. lra.
Qed.

Lemma banking_target_and_approach_witness :
  targetBanking flight (handleDown "KeyD" noKeys) = -0.4 /\
  ~ bankingStep flight (handleDown "KeyD" noKeys) 0
    == targetBanking flight (handleDown "KeyD" noKeys).
Proof.
  pose proof (banking_target_and_approach flight (handleDown "KeyD" noKeys) 0 1)
    as [_ [_ [R [_ [_ [_ S]]]]]].
  split.
  - apply R; reflexivity.
  - apply S. vm_compute. discriminate.
Defined.

(** C5, refuted as stated: with a left and a right key both held in flight
    mode the target bank angle is 0.4, not 0. *)
Lemma banking_target_both_turn_keys :
  let keys := handleDown "ArrowLeft" (handleDown "ArrowRight" noKeys) in
  isTurningLeft keys = true /\ isTurningRight keys = true /\
  targetBanking flight keys = 0.4 /\
  ~ targetBanking flight keys == 0.
Proof.
  repeat split. vm_compute. discriminate.
Qed.



(** C7.  A frame with no movement key held multiplies the velocity by the
    deceleration factor 0.95, in every mode.  Hence over a run of such
    frames the velocity is the starting one times a power of 0.95: its
    magnitude never grows as the run gets longer and strictly shrinks
    unless it is 0, its sign never flips, and it falls below every positive
    bound once the run is long enough. *)
Theorem coasting_decay (frames more : list (Mode * Keys)) (v : Q) :
  Forall coastingFrame frames -> Forall coastingFrame more ->
  (forall mode keys u,
      coasting keys = true ->
      velocityStep mode keys u = u * deceleration CONTROLS_CONFIG) /\
  velocityRun frames v == v * 0.95 ^ Z.of_nat (length frames) /\
  Qabs (velocityRun (frames ++ more)%list v) <= Qabs (velocityRun frames v) /\
  (more <> [] -> ~ v == 0 ->
   Qabs (velocityRun (frames ++ more)%list v) < Qabs (velocityRun frames v)) /\
  (0 < v -> 0 < velocityRun frames v) /\
  (v < 0 -> velocityRun frames v < 0) /\
  (v == 0 -> velocityRun frames v == 0) /\
  (forall eps, 0 < eps ->
     exists N : nat, forall fs,
         Forall coastingFrame fs -> (N <= length fs)%nat ->
         Qabs (velocityRun fs v) < eps).
Proof.
  intros Hf Hm.
  pose proof (velocityRun_coasting frames v Hf) as E1.
  pose proof (decay_pos (length frames)) as P1.
  set (v1 := velocityRun frames v) in *.
  assert (velocityRun (frames ++ more)%list v
          == v1 * 0.95 ^ Z.of_nat (length more)) as E2.
  { rewrite velocityRun_app. apply velocityRun_coasting. exact Hm. }
  pose proof (decay_pos (length more)) as P2.
  pose proof (decay_le_1 (length more)) as L2.
  assert (Qabs (velocityRun (frames ++ more)%list v)
          == Qabs v1 * 0.95 ^ Z.of_nat (length more)) as A2.
  { rewrite E2, Qabs_Qmult. rewrite (Qabs_pos (0.95 ^ _)) by lra. reflexivity. }
  pose proof (Qabs_nonneg v1) as N1.
  repeat split.
  - intros mode keys u. apply velocityStep_coasting.
  - exact E1.
  - rewrite A2.
    assert (0 <= Qabs v1 * (1 - 0.95 ^ Z.of_nat (length more)))
      by (apply Qmult_le_0_compat; lra).
    lra.
  - intros Hne Hv. rewrite A2.
    assert (0 < Qabs v1) as Hpos.
    { destruct (Qle_lt_or_eq _ _ N1) as [?|Z]; [assumption|].
      exfalso. apply Hv.
      assert (v1 == 0) as Z1.
      { pose proof (Qle_Qabs v1) as U. pose proof (Qle_Qabs (- v1)) as D.
        rewrite Qabs_opp in D. lra. }
      rewrite E1 in Z1.
      apply Qmult_integral in Z1. destruct Z1; [assumption | lra]. }
    assert (0.95 ^ Z.of_nat (length more) < 1) as S.
    { apply decay_lt_1. destruct more; [congruence | simpl; lia]. }
    assert (0 < Qabs v1 * (1 - 0.95 ^ Z.of_nat (length more)))
      by (apply Qmult_lt_0_compat; lra).
    lra.
  - intros Hv. rewrite E1. apply Qmult_lt_0_compat; assumption.
  - intros Hv. rewrite E1.
    assert (0 < (- v) * 0.95 ^ Z.of_nat (length frames))
      by (apply Qmult_lt_0_compat; lra).
    lra.
  - intros Hv. rewrite E1, Hv. lra.
  - intros eps He.
    destruct (decay_vanishes (Qabs v) eps (Qabs_nonneg v) He) as [N HN].
    exists N. intros fs Hfs Hlen.
    rewrite (velocityRun_coasting fs v Hfs), Qabs_Qmult.
    rewrite (Qabs_pos (0.95 ^ _)) by (pose proof (decay_pos (length fs)); lra).
    apply HN. exact Hlen.
Qed.

Lemma coasting_decay_witness :
  velocityRun [(car, noKeys); (robot, handleDown "KeyA" noKeys)] 0.8
  == 0.8 * 0.95 ^ 2.
Proof.
  assert (Forall coastingFrame [(car, noKeys); (robot, handleDown "KeyA" noKeys)])
    as H1 by (repeat constructor).
  assert (Forall coastingFrame [(flight, noKeys)])
    as H2 by (repeat constructor).
  exact (proj1 (proj2 (coasting_decay _ _ 0.8 H1 H2))).
Defined.

End VehicleClaims.

(** ** Part animation *)

Section PartFacts.
Import Three TransformerPart.

Lemma square_pos (a : Q) : ~ a == 0 -> 0 < a * a.
Proof.
  intros H. destruct (Q_dec a 0) as [[L|G]|E].
  - assert (0 < (- a) * (- a)) by (apply Qmult_lt_0_compat; lra). lra.
  - apply Qmult_lt_0_compat; assumption.
  - contradiction.
Qed.

Lemma square_nonneg (a : Q) : 0 <= a * a.
Proof.
  destruct (Qlt_le_dec a 0) as [L|G].
  - assert (0 <= (- a) * (- a)) by (apply Qmult_le_0_compat; lra). lra.
  - apply Qmult_le_0_compat; assumption.
Qed.

Lemma distanceToSquared_pos (a b : Vector3) :
  ~ Vector3_eq a b -> 0 < distanceToSquared a b.
Proof.
  intros H. unfold distanceToSquared; cbv zeta.
  pose proof (square_nonneg (x a - x b)).
  pose proof (square_nonneg (y a - y b)).
  pose proof (square_nonneg (z a - z b)).
  destruct (Qeq_dec (x a) (x b)) as [Ex|Nx].
  - destruct (Qeq_dec (y a) (y b)) as [Ey|Ny].
    + destruct (Qeq_dec (z a) (z b)) as [Ez|Nz].
      * exfalso. apply H. repeat split; assumption.
      * assert (0 < (z a - z b) * (z a - z b)) by (apply square_pos; lra). lra.
    + assert (0 < (y a - y b) * (y a - y b)) by (apply square_pos; lra). lra.
  - assert (0 < (x a - x b) * (x a - x b)) by (apply square_pos; lra). lra.
Qed.

(** One coordinate of [Vector3.lerp]: the offset from the target is scaled
    by [1 - alpha]. *)
Lemma lerp_coordinate_gap (c t alpha : Q) :
  (c + (t - c) * alpha) - t == (1 - alpha) * (c - t).
Proof. lra. Qed.

Lemma lerp_coordinate_between (c t alpha : Q) :
  0 <= alpha <= 1 -> between c t (c + (t - c) * alpha).
Proof.
  intros [A0 A1]. unfold between.
  destruct (Qlt_le_dec t c) as [L|G].
  - rewrite (Q.min_r c t), (Q.max_l c t) by lra.
    assert (0 <= (c - t) * alpha) by (apply Qmult_le_0_compat; lra).
    assert (0 <= (c - t) * (1 - alpha)) by (apply Qmult_le_0_compat; lra).
    lra.
  - rewrite (Q.min_l c t), (Q.max_r c t) by lra.
    assert (0 <= (t - c) * alpha) by (apply Qmult_le_0_compat; lra).
    assert (0 <= (t - c) * (1 - alpha)) by (apply Qmult_le_0_compat; lra).
    lra.
Qed.

Lemma Vector3_lerp_distance (a t : Vector3) (alpha : Q) :
  distanceToSquared (Vector3_lerp a t alpha) t
  == (1 - alpha) * (1 - alpha) * distanceToSquared a t.
Proof. unfold distanceToSquared, Vector3_lerp; simpl. ring. Qed.

Lemma dynamicMotion_wheel (Math_sin : Q -> Q) (p : Props) :
  partType p = "wheel" ->
  isWheelSpin (dynamicMotion Math_sin p) = negb (isRobot p).
Proof.
  intros H. unfold dynamicMotion. rewrite H.
  destruct (isRobot p), (isFlight p), (doorOpen p); reflexivity.
Qed.

Lemma dynamicMotion_door (Math_sin : Q -> Q) (p : Props) :
  partType p = "door_left" \/ partType p = "door_right" ->
  isFlap (dynamicMotion Math_sin p) = isFlight p /\
  isScissorOpen (dynamicMotion Math_sin p) = negb (isFlight p) && doorOpen p /\
  isWheelSpin (dynamicMotion Math_sin p) = false.
Proof.
  intros [H|H]; unfold dynamicMotion; rewrite H;
    destruct (isRobot p), (isFlight p), (doorOpen p); repeat split; reflexivity.
Qed.

(** The door flag handed to the parts is false outside car mode, after
    any sequence of clicks. *)
Lemma run_closed_outside_car (cs : list App.Command) :
  App.mode (App.run cs App.initial) <> App.car ->
  App.doorOpen (App.run cs App.initial) = false.
Proof.
  induction cs as [|c cs IH] using rev_ind.
  - intros H. exfalso. apply H. reflexivity.
  - rewrite run_app. apply dispatch_closed_outside_car. exact IH.
Qed.

(** The parts of the assembly whose tag contains "door" are the two doors,
    and they receive the door flag of the assembly. *)
Lemma CarAssembly_doors (pp : Types.PartProps) (p : Props) :
  In p (CarAssembly pp) ->
  JS.includes (partType p) "door" = true ->
  (partType p = "door_left" \/ partType p = "door_right") /\
  doorOpen p = Types.doorOpen pp.
Proof.
  intros H D. unfold CarAssembly, DiamondDriver in H. simpl in H.
  repeat (destruct H as [H|H]; [subst p; simpl in *;
                                try discriminate; auto|]).
  contradiction.
Qed.

(** Every part receives the two mode flags of the assembly. *)
Lemma CarAssembly_flags (pp : Types.PartProps) (p : Props) :
  In p (CarAssembly pp) ->
  isRobot p = Types.isRobot pp /\ isFlight p = Types.isFlight pp.
Proof.
  intros H. unfold CarAssembly, DiamondDriver in H. simpl in H.
  repeat (destruct H as [H|H]; [subst p; simpl; auto|]).
  contradiction.
Qed.

(** What [dynamicMotion] does to a wheel and to each door, with the
    angles it passes. *)
Lemma dynamicMotion_of_wheel (Math_sin : Q -> Q) (p : Props) :
  partType p = "wheel" ->
  dynamicMotion Math_sin p
  = if isRobot p then Identity
    else WheelSpin (mkEuler (JS.orElse (wheelRotation p) 0) 0 0).
Proof.
  intros H. unfold dynamicMotion. rewrite H.
  destruct (isRobot p), (isFlight p), (doorOpen p); reflexivity.
Qed.

Lemma dynamicMotion_of_door_left (Math_sin : Q -> Q) (p : Props) :
  partType p = "door_left" ->
  dynamicMotion Math_sin p
  = if isFlight p
    then Flap (mkEuler 0 0 (JS.Math_PI / 4
                            + Math_sin (JS.orElse (time p) 0 * 10) * 0.8))
    else if doorOpen p then ScissorOpen (mkEuler 0 0 (JS.Math_PI / 2.2))
    else Identity.
Proof.
  intros H. unfold dynamicMotion. rewrite H.
  destruct (isFlight p), (doorOpen p); reflexivity.
Qed.

Lemma dynamicMotion_of_door_right (Math_sin : Q -> Q) (p : Props) :
  partType p = "door_right" ->
  dynamicMotion Math_sin p
  = if isFlight p
    then Flap (mkEuler 0 0 (- JS.Math_PI / 4
                            - Math_sin (JS.orElse (time p) 0 * 10) * 0.8))
    else if doorOpen p then ScissorOpen (mkEuler 0 0 (- JS.Math_PI / 2.2))
    else Identity.
Proof.
  intros H. unfold dynamicMotion. rewrite H.
  destruct (isFlight p), (doorOpen p); reflexivity.
Qed.

(** The wheels receive the wheel rotation of the assembly and the doors
    its time. *)
Lemma CarAssembly_inputs (pp : Types.PartProps) (p : Props) :
  In p (CarAssembly pp) ->
  (partType p = "wheel" -> wheelRotation p = Some (Types.wheelRotation pp)) /\
  (partType p = "door_left" \/ partType p = "door_right" ->
   time p = Some (Types.time pp)).
Proof.
  intros H. unfold CarAssembly, DiamondDriver in H. simpl in H.
  repeat (destruct H as [H|H];
          [subst p; split; [intros E | intros [E|E]];
           try discriminate E; reflexivity|]).
  contradiction.
Qed.

(** The pose callback, for a mounted group, moves the position by
    [positionStep] and slerps the orientation toward [targetQ]. *)
Lemma useFrame_position
      (Math_sin : Q -> Q) (Quaternion : Type) (identityQ : Quaternion)
      (setFromEuler : Euler -> Quaternion)
      (multiply : Quaternion -> Quaternion -> Quaternion)
      (slerp : Quaternion -> Quaternion -> Q -> Quaternion)
      (p : Props) (delta : Q) (g : Group Quaternion) :
  exists g',
    useFrame Math_sin Quaternion identityQ setFromEuler multiply slerp
             p delta (Some g) = Some g' /\
    position Quaternion g' = positionStep p delta (position Quaternion g) /\
    quaternion Quaternion g'
    = slerp (quaternion Quaternion g)
            (multiply (setFromEuler (baseEuler p))
                      (dynamicQ Math_sin Quaternion identityQ setFromEuler p))
            (lerpSpeed delta).
Proof. eexists. repeat split. Qed.

End PartFacts.

Section PartClaims.
Import Three TransformerPart.

(** C2 (as the code has it).  Each frame moves the part's position toward
    the target position of the current mode by [Vector3.lerp] with factor
    [4 * delta], which is not clamped to 1.  For a frame with
    [0 < 4 * delta <= 1]: every coordinate of the new position lies between
    the old coordinate and the target's (no overshoot), its offset from the
    target is [1 - 4 * delta] times the old offset, the squared distance
    to the target is scaled by [(1 - 4 * delta)^2], and the distance
    strictly decreases unless the part is already at the target. *)
Theorem position_smoothing (p : Props) (delta : Q) (pos : Vector3) :
  0 < delta -> 4 * delta <= 1 ->
  let target := targetP p in
  let pos' := positionStep p delta pos in
  lerpSpeed delta = 4 * delta /\
  (between (x pos) (x target) (x pos') /\
   between (y pos) (y target) (y pos') /\
   between (z pos) (z target) (z pos')) /\
  (x pos' - x target == (1 - 4 * delta) * (x pos - x target) /\
   y pos' - y target == (1 - 4 * delta) * (y pos - y target) /\
   z pos' - z target == (1 - 4 * delta) * (z pos - z target)) /\
  distanceToSquared pos' target
    == (1 - 4 * delta) ^ 2 * distanceToSquared pos target /\
  (~ Vector3_eq pos target ->
   distanceToSquared pos' target < distanceToSquared pos target).
Proof.
  intros Hd Hf target pos'.
  assert (0 <= lerpSpeed delta <= 1) as Hr by (unfold lerpSpeed; lra).
  assert (distanceToSquared pos' target
          == (1 - 4 * delta) * (1 - 4 * delta) * distanceToSquared pos target)
    as Hdist by apply Vector3_lerp_distance.
  split; [reflexivity|]. split; [|split; [|split]].
  - repeat split; apply lerp_coordinate_between; exact Hr.
  - repeat split; apply lerp_coordinate_gap.
  - rewrite Hdist. simpl. ring.
  - intros Hne. rewrite Hdist.
    pose proof (distanceToSquared_pos pos target Hne) as Dp.
    set (d := distanceToSquared pos target) in *.
    assert (0 <= (1 - 4 * delta) * (4 * delta))
      by (apply Qmult_le_0_compat; lra).
    assert ((1 - 4 * delta) * (1 - 4 * delta) < 1) as S by lra.
    assert (0 < (1 - (1 - 4 * delta) * (1 - 4 * delta)) * d)
      by (apply Qmult_lt_0_compat; lra).
    lra.
Qed.

Lemma position_smoothing_witness :
  distanceToSquared
    (positionStep (torso false false false) 0.016 (mkVector3 0 0 0))
    (targetP (torso false false false))
  < distanceToSquared (mkVector3 0 0 0) (targetP (torso false false false)).
Proof.
  apply (position_smoothing (torso false false false) 0.016 (mkVector3 0 0 0)).
  - lra.
  - lra.
  - intros [_ [H _]]. vm_compute in H. discriminate.
Defined.

(** C2, refuted as stated: the torso in car mode, at the origin, on a
    frame one second long.  The factor is 4, not [min(1, 4)]; the part
    lands beyond the target and farther from it than it was. *)
Lemma position_overshoots_on_long_frame :
  let pos := mkVector3 0 0 0 in
  let pos' := positionStep (torso false false false) 1 pos in
  In (torso false false false) (CarAssembly
              (VehicleController.render App.initial
                 VehicleController.initialRefs 0)) /\
  ~ lerpSpeed 1 == Qmin 1 (4 * 1) /\
  ~ between (y pos) (y (targetP (torso false false false))) (y pos') /\
  distanceToSquared pos (targetP (torso false false false)) < distanceToSquared pos' (targetP (torso false false false)).
Proof.
  split; [|split; [|split]].
  - simpl. right; right; left. reflexivity.
  - vm_compute. discriminate.
  - unfold between. intros [_ H]. vm_compute in H. apply H. reflexivity.
  - vm_compute. reflexivity.
Qed.

(** C3.  On every frame, that is for the props rendered from the state
    after any sequence of clicks, for every part of the assembly, and for
    a mounted group: the frame slerps the orientation toward the base
    orientation multiplied by [dynamicQ].  For a wheel, [dynamicQ] is set
    from the spin angles (the wheel rotation, 0, 0) exactly when the mode
    is not robot, and is the identity in robot mode.  For a door,
    [dynamicQ] is set from the flapping angle about z,
    [PI / 4 + sin(time * 10) * 0.8] on the left and its opposite on the
    right, exactly when the mode is flight; from the fixed open angle
    [PI / 2.2], opposite on the right, exactly when the mode is car and
    the door flag is set; and is the identity otherwise.  The parts whose
    tag contains "door" are the two doors. *)
Theorem secondary_motion_by_mode
        (Math_sin : Q -> Q) (Quaternion : Type) (identityQ : Quaternion)
        (setFromEuler : Euler -> Quaternion)
        (multiply : Quaternion -> Quaternion -> Quaternion)
        (slerp : Quaternion -> Quaternion -> Q -> Quaternion)
        (cs : list App.Command) (r : VehicleController.Refs) (now : Q)
        (p : Props) (delta : Q) (g : Group Quaternion) :
  let s := App.run cs App.initial in
  In p (CarAssembly (VehicleController.render s r now)) ->
  let motion := dynamicMotion Math_sin p in
  let dq := dynamicQ Math_sin Quaternion identityQ setFromEuler p in
  let spin := mkEuler (VehicleController.wheelRot r) 0 0 in
  let flap := Math_sin (now * 10) * 0.8 in
  let flapLeft := mkEuler 0 0 (JS.Math_PI / 4 + flap) in
  let flapRight := mkEuler 0 0 (- JS.Math_PI / 4 - flap) in
  let openLeft := mkEuler 0 0 (JS.Math_PI / 2.2) in
  let openRight := mkEuler 0 0 (- JS.Math_PI / 2.2) in
  useFrame Math_sin Quaternion identityQ setFromEuler multiply slerp
           p delta (Some g)
  = Some (mkGroup Quaternion
            (positionStep p delta (position Quaternion g))
            (slerp (quaternion Quaternion g)
                   (multiply (setFromEuler (baseEuler p)) dq)
                   (lerpSpeed delta))) /\
  (partType p = "wheel" ->
   (motion = WheelSpin spin <-> App.mode s <> App.robot) /\
   (App.mode s <> App.robot -> dq = setFromEuler spin) /\
   (App.mode s = App.robot -> motion = Identity /\ dq = identityQ)) /\
  (partType p = "door_left" ->
   (motion = Flap flapLeft <-> App.mode s = App.flight) /\
   (motion = ScissorOpen openLeft <->
    App.mode s = App.car /\ App.doorOpen s = true) /\
   (App.mode s = App.flight -> dq = setFromEuler flapLeft) /\
   (App.mode s = App.car -> App.doorOpen s = true ->
    dq = setFromEuler openLeft) /\
   (App.mode s <> App.flight ->
    ~ (App.mode s = App.car /\ App.doorOpen s = true) ->
    motion = Identity /\ dq = identityQ)) /\
  (partType p = "door_right" ->
   (motion = Flap flapRight <-> App.mode s = App.flight) /\
   (motion = ScissorOpen openRight <->
    App.mode s = App.car /\ App.doorOpen s = true) /\
   (App.mode s = App.flight -> dq = setFromEuler flapRight) /\
   (App.mode s = App.car -> App.doorOpen s = true ->
    dq = setFromEuler openRight) /\
   (App.mode s <> App.flight ->
    ~ (App.mode s = App.car /\ App.doorOpen s = true) ->
    motion = Identity /\ dq = identityQ)) /\
  (JS.includes (partType p) "door" = true ->
   partType p = "door_left" \/ partType p = "door_right").
Proof.
  intros s Hin motion dq spin flap flapLeft flapRight openLeft openRight.
  destruct (CarAssembly_flags _ _ Hin) as [HR HF].
  destruct (CarAssembly_inputs _ _ Hin) as [HW HT].
  cbn [VehicleController.render Types.isRobot Types.isFlight
       Types.wheelRotation Types.time] in HR, HF, HW, HT.
  pose proof (run_closed_outside_car cs) as Inv. fold s in Inv.
  split; [reflexivity|]. split; [|split; [|split]].
  - intros Hw.
    assert (motion = if App.Mode_eqb (App.mode s) App.robot
                     then Identity else WheelSpin spin) as M.
    { unfold motion. rewrite (dynamicMotion_of_wheel Math_sin p Hw).
      rewrite HR, (HW Hw). reflexivity. }
    unfold dq, dynamicQ. fold motion. rewrite M.
    destruct (App.mode s); cbn [App.Mode_eqb]; repeat split;
      try reflexivity; try discriminate; try congruence;
      intros H; exfalso; apply H; reflexivity.
  - intros Hl.
    assert (App.doorOpen s = true -> App.mode s = App.car) as Car.
    { intros Ho. destruct (App.mode s) eqn:E; [reflexivity| |];
        rewrite Inv in Ho by discriminate; discriminate. }
    destruct (CarAssembly_doors _ _ Hin) as [_ HD].
    { rewrite Hl. reflexivity. }
    cbn [VehicleController.render Types.doorOpen] in HD.
    assert (motion = if App.Mode_eqb (App.mode s) App.flight
                     then Flap flapLeft
                     else if App.doorOpen s then ScissorOpen openLeft
                          else Identity) as M.
    { unfold motion. rewrite (dynamicMotion_of_door_left Math_sin p Hl).
      rewrite HF, HD, (HT (or_introl Hl)). reflexivity. }
    unfold dq, dynamicQ. fold motion. rewrite M.
    destruct (App.mode s) eqn:Em, (App.doorOpen s) eqn:Eo;
      cbn [App.Mode_eqb]; repeat split;
      try reflexivity; try discriminate; try congruence;
      try (intros [? ?]; congruence);
      try (specialize (Car eq_refl); discriminate);
      try (intros H; exfalso; apply H; reflexivity);
      try (intros ? H; exfalso; apply H; split; reflexivity);
      try (exfalso;
           match goal with
           | H : ~ (_ /\ _) |- _ => apply H; split; reflexivity
           end).
  - intros Hr.
    assert (App.doorOpen s = true -> App.mode s = App.car) as Car.
    { intros Ho. destruct (App.mode s) eqn:E; [reflexivity| |];
        rewrite Inv in Ho by discriminate; discriminate. }
    destruct (CarAssembly_doors _ _ Hin) as [_ HD].
    { rewrite Hr. reflexivity. }
    cbn [VehicleController.render Types.doorOpen] in HD.
    assert (motion = if App.Mode_eqb (App.mode s) App.flight
                     then Flap flapRight
                     else if App.doorOpen s then ScissorOpen openRight
                          else Identity) as M.
    { unfold motion. rewrite (dynamicMotion_of_door_right Math_sin p Hr).
      rewrite HF, HD, (HT (or_intror Hr)). reflexivity. }
    unfold dq, dynamicQ. fold motion. rewrite M.
    destruct (App.mode s) eqn:Em, (App.doorOpen s) eqn:Eo;
      cbn [App.Mode_eqb]; repeat split;
      try reflexivity; try discriminate; try congruence;
      try (intros [? ?]; congruence);
      try (specialize (Car eq_refl); discriminate);
      try (intros H; exfalso; apply H; reflexivity);
      try (intros ? H; exfalso; apply H; split; reflexivity);
      try (exfalso;
           match goal with
           | H : ~ (_ /\ _) |- _ => apply H; split; reflexivity
           end).
  - intros Hd. apply (CarAssembly_doors _ _ Hin Hd).
Qed.

Lemma secondary_motion_by_mode_witness :
  dynamicQ Session.circleSin (list Euler) [] (fun e => [e])
           (door_left false false true 0)
  = [mkEuler 0 0 (JS.Math_PI / 2.2)].
Proof.
  pose proof (secondary_motion_by_mode
                Session.circleSin (list Euler) [] (fun e => [e])
                (fun a b => (a ++ b)%list) (fun _ b _ => b)
                [App.ToggleDoor] VehicleController.initialRefs 0
                (door_left false false true 0) 0.016
                (mkGroup (list Euler) (mkVector3 0 0 0) [])) as H.
  cbv zeta in H.
  destruct H as [_ [_ [[_ [_ [_ [O _]]]] _]]].
  - simpl. do 4 right. left. reflexivity.
  - reflexivity.
  - apply O; reflexivity.
Defined.

(** C9.  In flight mode (robot flag off, flight flag on) a part without a
    flight position targets its car position, and a part without a flight
    rotation takes its base orientation from its car rotation; a flight
    entry that is present is the one used. *)
Theorem flight_pose_fallback (p : Props) :
  isRobot p = false -> isFlight p = true ->
  (flightPos p = None -> targetP p = fromArray (carPos p)) /\
  (flightRot p = None -> baseEuler p = eulerOf (carRot p)) /\
  (forall a, flightPos p = Some a -> targetP p = fromArray a) /\
  (forall a, flightRot p = Some a -> baseEuler p = eulerOf a).
Proof.
  intros HR HF. unfold targetP, baseEuler. rewrite HR, HF.
  repeat split; intros; match goal with H : _ = _ |- _ => rewrite H end;
    reflexivity.
Qed.

Lemma flight_pose_fallback_witness :
  let fin := mkProps "fin" (0, 1, 2) (0, 0, 0.5) (0, 3, 0) (0, 0, 0)
                     None None false true false None None in
  targetP fin = mkVector3 0 1 2 /\ baseEuler fin = mkEuler 0 0 0.5.
Proof.
  intros fin.
  destruct (flight_pose_fallback fin) as [HP [HE _]]; try reflexivity.
  split; [apply HP | apply HE]; reflexivity.
Defined.

End PartClaims.

(** * Further properties *)

(** ** Further properties of the mode and door state *)

Section AppExtras.
Import App AppView.

Lemma reachable_closed_outside_car (s : State) :
  reachable s -> mode s <> car -> doorOpen s = false.
Proof.
  intros H. destruct (reachable_run s H) as [cs ->].
  apply run_closed_outside_car.
Qed.

(** X1.  The states the clicks can reach are exactly those in which the
    mode is car or the door flag is false: car with the door closed or
    open, flight, and robot. *)
Theorem reachable_states (s : State) :
  reachable s <-> (mode s = car \/ doorOpen s = false).
Proof.
  split.
  - intros H. destruct (mode s) eqn:E; auto; right;
      apply (reachable_closed_outside_car s H); rewrite E; discriminate.
  - destruct s as [m d]; simpl. intros [->| ->].
    + destruct d.
      * apply (reach_step initial ToggleDoor). apply reach_initial.
      * apply reach_initial.
    + destruct m.
      * apply reach_initial.
      * apply (reach_step initial ToggleFlight). apply reach_initial.
      * apply (reach_step initial ToggleRobot). apply reach_initial.
Qed.

(** X2.  Two clicks on the door button restore the state, in every mode. *)
Theorem toggleDoor_involutive (s : State) : toggleDoor (toggleDoor s) = s.
Proof. destruct s as [[] []]; reflexivity. Qed.

(** X3.  The two mode buttons switch directly: ToggleFlight after
    ToggleRobot always ends in flight, and ToggleRobot after ToggleFlight
    always ends in robot, with the door closed, whatever the state was. *)
Theorem mode_buttons_switch_directly (s : State) :
  toggleFlight (toggleTransform s) = mkState flight false /\
  toggleTransform (toggleFlight s) = mkState robot false.
Proof. destruct s as [[] d]; split; reflexivity. Qed.

(** X4.  The door button is on the page exactly in the states where a click
    on it changes the state; and in every reachable state its label is
    "Seal Doors" exactly when the door flag is set. *)
Theorem doorButton_matches_toggleDoor (s : State) :
  (doorButton s <> None <-> toggleDoor s <> s) /\
  (reachable s -> (doorButton s = Some "Seal Doors" <-> doorOpen s = true)).
Proof.
  split.
  - destruct s as [[] []]; unfold doorButton, toggleDoor; simpl;
      split; intros H; try discriminate; try (exfalso; apply H; reflexivity).
  - intros R. pose proof (reachable_closed_outside_car s R) as Inv.
    destruct s as [[] []]; unfold doorButton; simpl in *; split; intros H;
      try reflexivity; try discriminate;
      exfalso; assert (true = false) by (apply Inv; discriminate);
      discriminate.
Qed.

Lemma doorButton_matches_toggleDoor_witness :
  doorButton (run [ToggleDoor] initial) = Some "Seal Doors" <->
  doorOpen (run [ToggleDoor] initial) = true.
Proof.
  apply (proj2 (doorButton_matches_toggleDoor (run [ToggleDoor] initial))).
  apply run_reachable.
Defined.

End AppExtras.

(** ** Further properties of the locomotion *)

Section VehicleExtraFacts.
Import App VehicleController Session.

Lemma velocityStep_keeps_range (mode : Mode) (keys : Keys) (v : Q) :
  inSpeedRange mode v -> inSpeedRange mode (velocityStep mode keys v).
Proof.
  unfold inSpeedRange, velocityStep. intros H.
  pose proof (currentMaxSpeed_pos mode) as M.
  pose proof (currentAccel_pos mode) as A.
  destruct (isMovingForward keys); [|destruct (isMovingBackward keys)].
  - destruct (Q.min_spec (v + currentAccel mode) (currentMaxSpeed mode))
      as [[? E]|[? E]]; rewrite E; lra.
  - destruct (Q.max_spec (v - currentAccel mode) (- currentMaxSpeed mode * 0.5))
      as [[? E]|[? E]]; rewrite E; lra.
  - unfold CONTROLS_CONFIG; simpl. lra.
Qed.

Lemma currentMaxSpeed_le_flight (mode : Mode) :
  currentMaxSpeed mode <= currentMaxSpeed flight.
Proof. destruct mode; unfold currentMaxSpeed; simpl; lra. Qed.

(** The flight interval is kept by a step in any mode. *)
Lemma velocityStep_keeps_flight_range (mode : Mode) (keys : Keys) (v : Q) :
  inSpeedRange flight v -> inSpeedRange flight (velocityStep mode keys v).
Proof.
  unfold inSpeedRange, velocityStep. intros H.
  pose proof (currentMaxSpeed_pos mode) as M.
  pose proof (currentMaxSpeed_le_flight mode) as F.
  pose proof (currentAccel_pos mode) as A.
  destruct (isMovingForward keys); [|destruct (isMovingBackward keys)].
  - destruct (Q.min_spec (v + currentAccel mode) (currentMaxSpeed mode))
      as [[? E]|[? E]]; rewrite E; lra.
  - destruct (Q.max_spec (v - currentAccel mode) (- currentMaxSpeed mode * 0.5))
      as [[? E]|[? E]]; rewrite E; lra.
  - unfold CONTROLS_CONFIG; simpl. lra.
Qed.

Lemma velocityStep_compat (mode : Mode) (keys : Keys) (v w : Q) :
  v == w -> velocityStep mode keys v == velocityStep mode keys w.
Proof.
  intros E. unfold velocityStep.
  destruct (isMovingForward keys); [|destruct (isMovingBackward keys)];
    rewrite E; reflexivity.
Qed.

Lemma steerEffect_opp (mode : Mode) (v : Q) :
  ~ v == 0 -> steerEffect mode (- v) == - steerEffect mode v.
Proof.
  intros Hv.
  pose proof (Qabs_opp v) as Ao.
  destruct (steerEffect_cases mode v)
    as [[E [C A]]|[[E [S B]]|[E [S B]]]];
  destruct (steerEffect_cases mode (- v))
    as [[E' [C' A']]|[[E' [S' B']]|[E' [S' B']]]];
  rewrite E, E'; try reflexivity; exfalso;
    try rewrite Ao in *; try lra;
    try (destruct B as [B|B]; [congruence | lra]);
    try (destruct B' as [B'|B']; [congruence | lra]).
Qed.

Lemma inject_nat_succ (n : nat) :
  inject_Z (Z.of_nat (S n)) == inject_Z (Z.of_nat n) + 1.
Proof.
  rewrite Nat2Z.inj_succ. unfold Z.succ. rewrite inject_Z_plus. reflexivity.
Qed.

Lemma inject_nat_nonneg (n : nat) : 0 <= inject_Z (Z.of_nat n).
Proof. change 0 with (inject_Z 0). rewrite <- Zle_Qle. lia. Qed.

End VehicleExtraFacts.

Section VehicleExtras.
Import App VehicleController Session.

(** X5.  The clamps are one-sided.  With a forward key held the new
    velocity is at most the maximum speed whatever the old one was, a
    velocity at or above the maximum becomes the maximum, and a velocity
    below it does not decrease; a held backward key is then ignored.  With
    only a backward key held the new velocity is at least minus half the
    maximum and does not increase from a velocity above that bound. *)
Theorem velocity_clamps (mode : Mode) (keys : Keys) (v : Q) :
  (isMovingForward keys = true ->
   velocityStep mode keys v
     = Qmin (v + currentAccel mode) (currentMaxSpeed mode) /\
   velocityStep mode keys v <= currentMaxSpeed mode /\
   (currentMaxSpeed mode <= v -> velocityStep mode keys v == currentMaxSpeed mode) /\
   (v <= currentMaxSpeed mode -> v <= velocityStep mode keys v)) /\
  (isMovingForward keys = false -> isMovingBackward keys = true ->
   - 0.5 * currentMaxSpeed mode <= velocityStep mode keys v /\
   (- 0.5 * currentMaxSpeed mode <= v -> velocityStep mode keys v <= v)).
Proof.
  pose proof (currentAccel_pos mode) as A.
  unfold velocityStep. split.
  - intros F. rewrite F. split; [reflexivity|].
    destruct (Q.min_spec (v + currentAccel mode) (currentMaxSpeed mode))
      as [[? E]|[? E]]; rewrite E; repeat split; intros; lra.
  - intros F B. rewrite F, B.
    destruct (Q.max_spec (v - currentAccel mode) (- currentMaxSpeed mode * 0.5))
      as [[? E]|[? E]]; rewrite E; repeat split; intros; lra.
Qed.

Lemma velocity_clamps_witness :
  velocityStep car (handleDown "KeyS" (handleDown "KeyW" noKeys)) 1.2 == 0.8.
Proof.
  pose proof (velocity_clamps car (handleDown "KeyS" (handleDown "KeyW" noKeys)) 1.2)
    as [F _].
  destruct (F eq_refl) as [_ [_ [S _]]].
  rewrite S.
  - reflexivity.
  - vm_compute. discriminate.
Defined.

(** X6.  Holding a forward key from rest in one mode: after [n] frames the
    velocity is [min(n * accel, maxSpeed)]; it rises by the acceleration
    each frame and, once [n * accel] has reached the maximum speed, it is
    the maximum speed exactly. *)
Theorem forward_from_rest (mode : Mode) (keys : Keys) (n : nat) :
  isMovingForward keys = true ->
  velocityRun (repeat (mode, keys) n) 0
    == Qmin (inject_Z (Z.of_nat n) * currentAccel mode) (currentMaxSpeed mode) /\
  (currentMaxSpeed mode <= inject_Z (Z.of_nat n) * currentAccel mode ->
   velocityRun (repeat (mode, keys) n) 0 == currentMaxSpeed mode).
Proof.
  intros F.
  pose proof (currentAccel_pos mode) as A.
  pose proof (currentMaxSpeed_pos mode) as M.
  assert (velocityRun (repeat (mode, keys) n) 0
          == Qmin (inject_Z (Z.of_nat n) * currentAccel mode)
                  (currentMaxSpeed mode)) as Hrun.
  { induction n as [|k IH].
    - cbn [repeat velocityRun Z.of_nat]. change (inject_Z 0) with 0.
      rewrite Q.min_l; lra.
    - change (repeat (mode, keys) (S k))
        with ((mode, keys) :: repeat (mode, keys) k).
      rewrite repeat_cons, velocityRun_app. cbn [velocityRun].
      rewrite (velocityStep_compat mode keys _ _ IH).
      unfold velocityStep. rewrite F. rewrite inject_nat_succ.
      pose proof (inject_nat_nonneg k) as K.
      set (m := inject_Z (Z.of_nat k)) in *.
      destruct (Q.min_spec (m * currentAccel mode) (currentMaxSpeed mode))
        as [[? E]|[? E]]; rewrite E;
      destruct (Q.min_spec ((m + 1) * currentAccel mode) (currentMaxSpeed mode))
        as [[? E2]|[? E2]]; rewrite E2.
      + rewrite Q.min_l; lra.
      + rewrite Q.min_r; lra.
      + lra.
      + rewrite Q.min_r; lra. }
  split; [exact Hrun|].
  intros Hn. rewrite Hrun. apply Q.min_r. exact Hn.
Qed.

Lemma forward_from_rest_witness :
  velocityRun (repeat (car, handleDown "ArrowUp" noKeys) 40) 0
  == currentMaxSpeed car.
Proof.
  apply (forward_from_rest car (handleDown "ArrowUp" noKeys) 40).
  - reflexivity.
  - vm_compute. discriminate.
Defined.

(** X7.  Within one mode, the velocity never leaves the interval
    [-0.5 * maxSpeed, maxSpeed] of that mode over any run of frames, with
    any keys in each frame, once it is inside. *)
Theorem velocity_run_in_range (mode : Mode) (frames : list (Mode * Keys)) (v : Q) :
  Forall (fun f => fst f = mode) frames ->
  inSpeedRange mode v ->
  inSpeedRange mode (velocityRun frames v).
Proof.
  revert v. induction frames as [|[m k] rest IH]; intros v Hm Hv.
  - exact Hv.
  - apply Forall_cons_iff in Hm. destruct Hm as [Hf Hrest].
    simpl in Hf. subst m.
    cbn [velocityRun]. apply IH; [exact Hrest|].
    apply velocityStep_keeps_range. exact Hv.
Qed.

Lemma velocity_run_in_range_witness :
  inSpeedRange robot
    (velocityRun [(robot, handleDown "KeyW" noKeys); (robot, noKeys);
                  (robot, handleDown "KeyS" noKeys)] 0.3).
Proof.
  apply velocity_run_in_range.
  - repeat constructor.
  - unfold inSpeedRange. vm_compute. split; discriminate.
Defined.

(** X8.  Across mode switches: over any run of frames, each with its own
    mode and keys, a velocity that starts inside the flight interval
    [-0.6, 1.2], in particular one that starts at rest, stays inside it. *)
Theorem velocity_run_in_flight_range (frames : list (Mode * Keys)) (v : Q) :
  inSpeedRange flight v ->
  inSpeedRange flight (velocityRun frames v) /\
  - 0.6 <= velocityRun frames v <= 1.2.
Proof.
  intros Hv.
  assert (inSpeedRange flight (velocityRun frames v)) as H.
  { revert v Hv. induction frames as [|[m k] rest IH]; intros v Hv.
    - exact Hv.
    - cbn [velocityRun]. apply IH. apply velocityStep_keeps_flight_range.
      exact Hv. }
  split; [exact H|].
  unfold inSpeedRange, currentMaxSpeed in H. simpl in H. lra.
Qed.

Lemma velocity_run_in_flight_range_witness :
  - 0.6 <= velocityRun [(flight, handleDown "KeyW" noKeys); (robot, noKeys);
                        (car, handleDown "KeyS" noKeys)] 0 <= 1.2.
Proof.
  apply velocity_run_in_flight_range.
  unfold inSpeedRange. vm_compute. split; discriminate.
Defined.

(** X9.  In one frame the heading changes by at most the turn speed of the
    mode, hence by at most 0.048. *)
Theorem heading_change_bounded (mode : Mode) (keys : Keys) (v rotY : Q) :
  Qabs (headingStep mode keys v rotY - rotY) <= currentTurnSpeed mode /\
  currentTurnSpeed mode <= 0.048.
Proof.
  pose proof (currentTurnSpeed_pos mode) as T.
  split.
  - apply Qabs_Qle_condition. rewrite headingStep_keys.
    destruct (steerEffect_cases mode v) as [[E _]|[[E _]|[E _]]]; rewrite E;
      destruct (isTurningLeft keys), (isTurningRight keys); split; lra.
  - destruct mode; unfold currentTurnSpeed; simpl; lra.
Qed.

(** X10.  With a left and a right key both held, or neither, the heading
    is unchanged, in every mode and at every velocity. *)
Theorem heading_unchanged_when_balanced (mode : Mode) (keys : Keys) (v rotY : Q) :
  isTurningLeft keys = isTurningRight keys ->
  headingStep mode keys v rotY == rotY.
Proof.
  intros H. rewrite headingStep_keys, H.
  destruct (isTurningRight keys); lra.
Qed.

Lemma heading_unchanged_when_balanced_witness :
  headingStep robot (handleDown "KeyA" (handleDown "ArrowRight" noKeys)) 0.3 1
  == 1.
Proof.
  apply heading_unchanged_when_balanced. reflexivity.
Defined.

(** X11.  Reversing flips the steering: for a nonzero velocity, the heading
    change with the velocity negated is the opposite of the heading change
    with the velocity itself, for the same keys and mode. *)
Theorem reverse_steering_mirrors (mode : Mode) (keys : Keys) (v rotY : Q) :
  ~ v == 0 ->
  headingStep mode keys (- v) rotY - rotY
  == - (headingStep mode keys v rotY - rotY).
Proof.
  intros Hv. rewrite !headingStep_keys.
  pose proof (steerEffect_opp mode v Hv) as E.
  destruct (isTurningLeft keys), (isTurningRight keys); rewrite ?E; lra.
Qed.

Lemma reverse_steering_mirrors_witness :
  headingStep car (handleDown "KeyA" noKeys) (Qopp 0.5) 0 - 0
  == - (headingStep car (handleDown "KeyA" noKeys) 0.5 0 - 0).
Proof.
  apply (reverse_steering_mirrors car (handleDown "KeyA" noKeys) 0.5 0).
  vm_compute. discriminate.
Defined.

End VehicleExtras.

Section FrameExtraFacts.
Import Three App VehicleController Session.

Lemma circle_denominator_pos (t : Q) : 0 < 1 + t * t.
Proof. pose proof (square_nonneg t). lra. Qed.

Lemma circleSin_bounded (t : Q) : -1 <= circleSin t <= 1.
Proof.
  pose proof (circle_denominator_pos t) as D.
  pose proof (square_nonneg (1 - t)) as A.
  pose proof (square_nonneg (1 + t)) as B.
  unfold circleSin. split.
  - apply Qle_shift_div_l; [exact D | lra].
  - apply Qle_shift_div_r; [exact D | lra].
Qed.

Lemma circle_identity (t : Q) :
  circleSin t * circleSin t + circleCos t * circleCos t == 1.
Proof.
  pose proof (circle_denominator_pos t) as D.
  unfold circleSin, circleCos. field. lra.
Qed.

Lemma targetBanking_bounded (mode : Mode) (keys : Keys) :
  -0.4 <= targetBanking mode keys <= 0.4.
Proof.
  unfold targetBanking.
  destruct (isFlight mode), (isTurningLeft keys), (isTurningRight keys);
    split; lra.
Qed.

Lemma times_zero (a b : Q) : b == 0 -> a * b == 0.
Proof. intros ->. ring. Qed.

Lemma useFrame_groupRef (Math_sin Math_cos : Q -> Q) (mode : Mode) (keys : Keys)
      (clock : Q) (s : Scene) :
  groupRef (useFrame Math_sin Math_cos mode keys clock s) = None <->
  groupRef s = None.
Proof.
  unfold useFrame. destruct (groupRef s) eqn:E; simpl.
  - split; discriminate.
  - rewrite E. split; reflexivity.
Qed.

End FrameExtraFacts.

Section FrameExtras.
Import Three App VehicleController Session.

(** X12.  If the runtime's sine stays within [-1, 1], then over any run of
    frames, in any modes and with any keys, the bank angle stays within
    [-0.4, 0.4] and the altitude within [0, 4.3] once they are there, as
    they are at the start. *)
Theorem attitude_stays_in_envelope
        (Math_sin Math_cos : Q -> Q) (frames : list Frame) (s : Scene) :
  (forall t, -1 <= Math_sin t <= 1) ->
  attitudeEnvelope (refs s) ->
  attitudeEnvelope (refs (runFrames Math_sin Math_cos frames s)).
Proof.
  intros Hsin. revert s.
  induction frames as [|f rest IH]; intros s Henv.
  - exact Henv.
  - cbn [runFrames]. apply IH.
    unfold useFrame. destruct (groupRef s); [|exact Henv].
    destruct Henv as [Hb [Hh0 Hh1]]. unfold attitudeEnvelope. project_fields.
    apply Qabs_Qle_condition in Hb.
    pose proof (targetBanking_bounded (frameMode f) (frameKeys f)) as Tb.
    pose proof (Hsin (frameClock f * 2)) as Hs.
    split.
    + apply Qabs_Qle_condition. unfold bankingStep, lerp.
      destruct Hb, Tb. split; lra.
    + unfold lerp, targetHeight. destruct Hs.
      destruct (isFlight (frameMode f)); split; lra.
Qed.

Lemma attitude_stays_in_envelope_witness :
  attitudeEnvelope
    (refs (runFrames circleSin circleCos
             [ mkFrame flight (handleDown "KeyA" noKeys) 0.5;
               mkFrame car noKeys 0.6 ]
             (mkScene initialRefs
                      (Some (mkGroup (mkVector3 0 0 0) (mkEuler 0 0 0))) None))).
Proof.
  apply attitude_stays_in_envelope.
  - apply circleSin_bounded.
  - unfold attitudeEnvelope. vm_compute.
    split; [|split]; discriminate.
Defined.

(** X13.  Outside flight mode the altitude decays by the factor 0.95 per
    frame: after a run of [n] frames none of which is in flight mode, a
    mounted vehicle is at [0.95 ^ n] times the altitude it started from. *)
Theorem altitude_decays_outside_flight
        (Math_sin Math_cos : Q -> Q) (frames : list Frame) (s : Scene) :
  groupRef s <> None ->
  Forall (fun f => frameMode f <> flight) frames ->
  height (refs (runFrames Math_sin Math_cos frames s))
  == height (refs s) * 0.95 ^ Z.of_nat (length frames).
Proof.
  revert s. induction frames as [|f rest IH]; intros s Hg Hf.
  - simpl. lra.
  - apply Forall_cons_iff in Hf. destruct Hf as [Hm Hrest].
    cbn [runFrames length]. rewrite IH; [| |exact Hrest].
    + rewrite Qpower_S. unfold useFrame.
      destruct (groupRef s); [|contradiction]. project_fields.
      unfold lerp, targetHeight, isFlight.
      apply Mode_eqb_neq in Hm. rewrite Hm. lra.
    + rewrite useFrame_groupRef. exact Hg.
Qed.

Lemma altitude_decays_outside_flight_witness :
  height (refs (runFrames circleSin circleCos
                  [ mkFrame car noKeys 0; mkFrame robot noKeys 0.1 ]
                  (mkScene (mkRefs 0 0 4 0 0 (mkVector3 0 4 0))
                           (Some (mkGroup (mkVector3 0 4 0) (mkEuler 0 0 0)))
                           None)))
  == 4 * 0.95 ^ 2.
Proof.
  apply (altitude_decays_outside_flight circleSin circleCos
           [ mkFrame car noKeys 0; mkFrame robot noKeys 0.1 ]).
  - discriminate.
  - repeat constructor; discriminate.
Defined.

(** X14.  A vehicle at rest with no movement key held stays where it is:
    over any run of such frames, in any modes and with any turn keys, the
    velocity stays 0, the x and z coordinates of the world position do not
    change and the wheel rotation does not change. *)
Theorem parked_vehicle_stays_put
        (Math_sin Math_cos : Q -> Q) (frames : list Frame) (s : Scene) :
  velocity (refs s) == 0 ->
  Forall (fun f => coasting (frameKeys f) = true) frames ->
  let s' := runFrames Math_sin Math_cos frames s in
  velocity (refs s') == 0 /\
  x (worldPos (refs s')) == x (worldPos (refs s)) /\
  z (worldPos (refs s')) == z (worldPos (refs s)) /\
  wheelRot (refs s') == wheelRot (refs s).
Proof.
  revert s. induction frames as [|f rest IH]; intros s Hv Hf.
  - cbn [runFrames]. repeat split; try reflexivity. exact Hv.
  - apply Forall_cons_iff in Hf. destruct Hf as [Hc Hrest].
    cbn [runFrames]. cbv zeta.
    set (s1 := useFrame Math_sin Math_cos (frameMode f) (frameKeys f)
                        (frameClock f) s).
    assert (velocity (refs s1) == 0 /\
            x (worldPos (refs s1)) == x (worldPos (refs s)) /\
            z (worldPos (refs s1)) == z (worldPos (refs s)) /\
            wheelRot (refs s1) == wheelRot (refs s)) as [V1 [X1 [Z1 W1]]].
    { unfold s1, useFrame. destruct (groupRef s).
      - project_fields. rewrite (velocityStep_coasting _ _ _ Hc).
        unfold CONTROLS_CONFIG; cbn [deceleration].
        set (v1 := velocity (refs s) * 0.95).
        assert (v1 == 0) as V1 by (unfold v1; rewrite Hv; ring).
        repeat split.
        + exact V1.
        + rewrite (times_zero _ _ V1). ring.
        + rewrite (times_zero _ _ V1). ring.
        + rewrite V1. ring.
      - repeat split; try reflexivity. exact Hv. }
    destruct (IH s1 V1 Hrest) as [V [X [Z W]]].
    repeat split.
    + exact V.
    + rewrite X. exact X1.
    + rewrite Z. exact Z1.
    + rewrite W. exact W1.
Qed.

Lemma parked_vehicle_stays_put_witness :
  x (worldPos (refs (runFrames circleSin circleCos
                       [ mkFrame flight (handleDown "KeyA" noKeys) 0 ]
                       (mkScene (mkRefs 0 1 0 0 2 (mkVector3 3 0 5))
                                (Some (mkGroup (mkVector3 3 0 5) (mkEuler 0 1 0)))
                                None))))
  == 3.
Proof.
  apply (parked_vehicle_stays_put circleSin circleCos
           [ mkFrame flight (handleDown "KeyA" noKeys) 0 ]
           (mkScene (mkRefs 0 1 0 0 2 (mkVector3 3 0 5))
                    (Some (mkGroup (mkVector3 3 0 5) (mkEuler 0 1 0))) None)).
  - reflexivity.
  - repeat constructor.
Defined.

(** X15.  If the runtime's sine and cosine satisfy
    [sin^2 + cos^2 = 1], a frame moves a mounted vehicle horizontally by
    exactly the magnitude of its new velocity: the squared displacement in
    x and z is the square of the velocity. *)
Theorem displacement_is_velocity
        (Math_sin Math_cos : Q -> Q) (mode : Mode) (keys : Keys) (clock : Q)
        (s : Scene) :
  (forall t, Math_sin t * Math_sin t + Math_cos t * Math_cos t == 1) ->
  groupRef s <> None ->
  let s' := useFrame Math_sin Math_cos mode keys clock s in
  let dx := x (worldPos (refs s')) - x (worldPos (refs s)) in
  let dz := z (worldPos (refs s')) - z (worldPos (refs s)) in
  dx * dx + dz * dz == velocity (refs s') * velocity (refs s').
Proof.
  intros Htrig Hg. unfold useFrame.
  destruct (groupRef s); [|contradiction]. project_fields.
  set (v := velocityStep mode keys (velocity (refs s))).
  set (r := headingStep mode keys v (rotY (refs s))).
  pose proof (Htrig r) as T.
  assert ((x (worldPos (refs s)) + Math_sin r * v - x (worldPos (refs s)))
          * (x (worldPos (refs s)) + Math_sin r * v - x (worldPos (refs s)))
          + (z (worldPos (refs s)) + Math_cos r * v - z (worldPos (refs s)))
            * (z (worldPos (refs s)) + Math_cos r * v - z (worldPos (refs s)))
          == (Math_sin r * Math_sin r + Math_cos r * Math_cos r) * (v * v))
    as -> by ring.
  rewrite T. ring.
Qed.

Lemma displacement_is_velocity_witness :
  let s := mkScene (mkRefs 0.5 1 0 0 0 (mkVector3 0 0 0))
                   (Some (mkGroup (mkVector3 0 0 0) (mkEuler 0 1 0))) None in
  let s' := useFrame circleSin circleCos car (handleDown "KeyW" noKeys) 0 s in
  let dx := x (worldPos (refs s')) - x (worldPos (refs s)) in
  let dz := z (worldPos (refs s')) - z (worldPos (refs s)) in
  dx * dx + dz * dz == velocity (refs s') * velocity (refs s').
Proof.
  apply (displacement_is_velocity circleSin circleCos).
  - apply circle_identity.
  - discriminate.
Defined.

(** X16.  The camera follows without jumping: with the group and the orbit
    controls mounted, a frame moves the look-at target one tenth of the way
    to the point above the vehicle's new position (3.0 above in robot mode,
    0.8 otherwise), so the squared distance to that point is multiplied by
    0.81; without orbit controls none are created. *)
Theorem camera_follows
        (Math_sin Math_cos : Q -> Q) (mode : Mode) (keys : Keys) (clock : Q)
        (s : Scene) :
  groupRef s <> None ->
  let s' := useFrame Math_sin Math_cos mode keys clock s in
  let targetPoint :=
    Vector3_add (worldPos (refs s'))
                (mkVector3 0 (if Mode_eqb mode robot then 3.0 else 0.8) 0) in
  (controlsRef s = None -> controlsRef s' = None) /\
  (forall c, controlsRef s = Some c ->
     exists c', controlsRef s' = Some c' /\
       target c' = Vector3_lerp (target c) targetPoint 0.1 /\
       distanceToSquared (target c') targetPoint
       == 0.81 * distanceToSquared (target c) targetPoint).
Proof.
  intros Hg. unfold useFrame.
  destruct (groupRef s); [|contradiction]. project_fields. split.
  - intros ->. reflexivity.
  - intros c ->. eexists. split; [reflexivity|]. split; [reflexivity|].
    project_fields. unfold isRobot. rewrite Vector3_lerp_distance. ring.
Qed.

Lemma camera_follows_witness :
  let s := mkScene initialRefs
                   (Some (mkGroup (mkVector3 0 0 0) (mkEuler 0 0 0)))
                   (Some (mkControls (mkVector3 0 0 0))) in
  controlsRef (useFrame circleSin circleCos robot noKeys 0 s)
  = Some (mkControls
            (Vector3_lerp (mkVector3 0 0 0)
               (Vector3_add
                  (worldPos (refs (useFrame circleSin circleCos robot noKeys 0 s)))
                  (mkVector3 0 3.0 0)) 0.1)).
Proof.
  intros s.
  destruct (camera_follows circleSin circleCos robot noKeys 0 s) as [_ H].
  - discriminate.
  - destruct (H (mkControls (mkVector3 0 0 0)) eq_refl) as [c' [E [T _]]].
    rewrite E. f_equal. destruct c' as [t]. simpl in T. rewrite T. reflexivity.
Defined.

(** X17.  While the group is not mounted the callback does nothing: any
    run of frames leaves the whole scene, velocity and heading included,
    as it was, whatever keys are held. *)
Theorem unmounted_vehicle_is_inert
        (Math_sin Math_cos : Q -> Q) (frames : list Frame) (s : Scene) :
  groupRef s = None ->
  runFrames Math_sin Math_cos frames s = s.
Proof.
  intros Hg. induction frames as [|f rest IH].
  - reflexivity.
  - cbn [runFrames].
    assert (useFrame Math_sin Math_cos (frameMode f) (frameKeys f)
                     (frameClock f) s = s) as ->.
    { unfold useFrame. rewrite Hg. reflexivity. }
    exact IH.
Qed.

Lemma unmounted_vehicle_is_inert_witness :
  runFrames circleSin circleCos
    [ mkFrame car (handleDown "KeyW" noKeys) 0 ]
    (mkScene initialRefs None None)
  = mkScene initialRefs None None.
Proof.
  apply unmounted_vehicle_is_inert. reflexivity.
Defined.

End FrameExtras.

(** ** Further properties of the keyboard state *)

Section KeyExtras.
Import Three App VehicleController Session.

Lemma unbound_direction_flags (code : string) (keys keys' : Keys) :
  (forall c, In c boundCodes -> keys' c = keys c) ->
  isMovingForward keys' = isMovingForward keys /\
  isMovingBackward keys' = isMovingBackward keys /\
  isTurningLeft keys' = isTurningLeft keys /\
  isTurningRight keys' = isTurningRight keys.
Proof.
  intros H.
  unfold isMovingForward, isMovingBackward, isTurningLeft, isTurningRight.
  rewrite !H by (simpl; tauto). repeat split.
Qed.

Lemma useFrame_reads_bound_codes
      (Math_sin Math_cos : Q -> Q) (mode : Mode) (keys keys' : Keys)
      (clock : Q) (s : Scene) :
  (forall c, In c boundCodes -> keys' c = keys c) ->
  useFrame Math_sin Math_cos mode keys' clock s
  = useFrame Math_sin Math_cos mode keys clock s.
Proof.
  intros H.
  destruct (unbound_direction_flags "" keys keys' H) as [F [B [L R]]].
  unfold useFrame, velocityStep, headingStep, bankingStep, targetBanking.
  rewrite F, B, L, R. reflexivity.
Qed.

(** X18.  Keys other than the eight bound codes are ignored: pressing or
    releasing any other key leaves the result of the frame unchanged. *)
Theorem unbound_keys_are_ignored
        (Math_sin Math_cos : Q -> Q) (mode : Mode) (keys : Keys) (clock : Q)
        (s : Scene) (code : string) :
  ~ In code boundCodes ->
  useFrame Math_sin Math_cos mode (handleDown code keys) clock s
  = useFrame Math_sin Math_cos mode keys clock s /\
  useFrame Math_sin Math_cos mode (handleUp code keys) clock s
  = useFrame Math_sin Math_cos mode keys clock s.
Proof.
  intros Hn.
  assert (forall c, In c boundCodes -> String.eqb c code = false) as Hc.
  { intros c Hin. apply String.eqb_neq. intros ->. contradiction. }
  split; apply useFrame_reads_bound_codes; intros c Hin;
    unfold handleDown, handleUp; rewrite (Hc c Hin); reflexivity.
Qed.

Lemma unbound_keys_are_ignored_witness :
  useFrame circleSin circleCos car (handleDown "Space" noKeys) 0
           (mkScene initialRefs
                    (Some (mkGroup (mkVector3 0 0 0) (mkEuler 0 0 0))) None)
  = useFrame circleSin circleCos car noKeys 0
             (mkScene initialRefs
                      (Some (mkGroup (mkVector3 0 0 0) (mkEuler 0 0 0))) None).
Proof.
  apply (unbound_keys_are_ignored circleSin circleCos car noKeys 0 _ "Space").
  simpl. intros H. repeat (destruct H as [H|H]; [discriminate|]). exact H.
Defined.

(** X19.  After any sequence of key events a code reads as held exactly
    when the last event about it was a press; a code no event mentions
    keeps the value it had. *)
Theorem keys_follow_last_event
        (events : list KeyEvent) (keys : Keys) (code : string) :
  applyEvents events keys code
  = match lastEvent code events with
    | Some b => b
    | None => keys code
    end.
Proof.
  revert keys. induction events as [|e rest IH]; intros keys.
  - reflexivity.
  - unfold applyEvents in *. cbn [fold_left lastEvent]. rewrite IH.
    destruct (lastEvent code rest); [reflexivity|].
    destruct e as [c|c]; unfold handle, handleDown, handleUp;
      destruct (String.eqb code c); reflexivity.
Qed.

End KeyExtras.

(** ** Further properties of the part animation *)

Section PartExtras.
Import Three TransformerPart Session.

(** X20.  Over any run of frames with the props unchanged, each coordinate
    of the part's offset from its target is the starting offset times the
    product of [1 - 4 * delta] over the frames, whatever the [delta]s
    are. *)
Theorem position_run_closed_form (p : Props) (deltas : list Q) (pos : Vector3) :
  x (positionRun p deltas pos) - x (targetP p)
    == remaining deltas * (x pos - x (targetP p)) /\
  y (positionRun p deltas pos) - y (targetP p)
    == remaining deltas * (y pos - y (targetP p)) /\
  z (positionRun p deltas pos) - z (targetP p)
    == remaining deltas * (z pos - z (targetP p)).
Proof.
  revert pos. induction deltas as [|d rest IH]; intros pos.
  - cbn [positionRun remaining]. repeat split; ring.
  - cbn [positionRun remaining].
    destruct (IH (positionStep p d pos)) as [X [Y Z]].
    rewrite X, Y, Z.
    unfold positionStep, lerpSpeed, Vector3_lerp. cbn [x y z].
    repeat split; ring.
Qed.

(** X21.  Three frame lengths.  With [delta = 0] the position does not
    move; with [4 * delta = 1] it lands exactly on the target; with
    [delta = 0.5] (factor 2) it is reflected through the target, ending on
    the other side at the same distance. *)
Theorem position_step_special_frames (p : Props) (delta : Q) (pos : Vector3) :
  (delta == 0 -> Vector3_eq (positionStep p delta pos) pos) /\
  (4 * delta == 1 -> Vector3_eq (positionStep p delta pos) (targetP p)) /\
  (delta == 0.5 ->
   x (positionStep p delta pos) - x (targetP p) == - (x pos - x (targetP p)) /\
   y (positionStep p delta pos) - y (targetP p) == - (y pos - y (targetP p)) /\
   z (positionStep p delta pos) - z (targetP p) == - (z pos - z (targetP p)) /\
   distanceToSquared (positionStep p delta pos) (targetP p)
   == distanceToSquared pos (targetP p)).
Proof.
  unfold positionStep, lerpSpeed, Vector3_eq, distanceToSquared, Vector3_lerp.
  cbn [x y z]. split; [|split]; intros H.
  - repeat split; rewrite H; ring.
  - assert (forall a b : Q, a + (b - a) * (4 * delta) == b) as E.
    { intros a b.
      setoid_replace ((b - a) * (4 * delta)) with ((b - a) * 1)
        by (rewrite H; reflexivity).
      ring. }
    repeat split; apply E.
  - repeat split; rewrite H; ring.
Qed.

Lemma position_step_special_frames_witness :
  Vector3_eq (positionStep (torso false false false) 0.25 (mkVector3 5 5 5))
             (targetP (torso false false false)).
Proof.
  apply (position_step_special_frames (torso false false false) 0.25).
  reflexivity.
Defined.

End PartExtras.

Section MotionExtras.
Import Three TransformerPart Session.

(** X22.  The secondary rotation is left at the identity in all cases
    but two: a part tagged "wheel" outside robot mode, and a part tagged
    "door_left" or "door_right" in flight mode or with the door flag set.
    In particular any other tag, also one that contains "door", never
    gets a secondary rotation. *)
Theorem secondary_motion_identity (Math_sin : Q -> Q) (p : Props) :
  dynamicMotion Math_sin p = Identity <->
  ~ ((partType p = "wheel" /\ isRobot p = false) \/
     ((partType p = "door_left" \/ partType p = "door_right") /\
      (isFlight p = true \/ doorOpen p = true))).
Proof.
  unfold dynamicMotion.
  destruct (String.eqb_spec (partType p) "wheel") as [W|W].
  - rewrite W. cbn.
    destruct (isRobot p); cbn; split.
    + intros _ [[_ H]|[[H|H] _]]; discriminate.
    + reflexivity.
    + discriminate.
    + intros H. exfalso. apply H. left. split; reflexivity.
  - destruct (String.eqb_spec (partType p) "door_left") as [L|L];
      [|destruct (String.eqb_spec (partType p) "door_right") as [R|R]].
    + rewrite L. cbn.
      destruct (isFlight p); [|destruct (doorOpen p)]; split;
        try discriminate; try reflexivity.
      * intros H. exfalso. apply H. right. split; auto.
      * intros H. exfalso. apply H. right. split; auto.
      * intros _ [[H _]|[_ [H|H]]]; discriminate.
    + rewrite R. cbn.
      destruct (isFlight p); [|destruct (doorOpen p)]; split;
        try discriminate; try reflexivity.
      * intros H. exfalso. apply H. right. split; auto.
      * intros H. exfalso. apply H. right. split; auto.
      * intros _ [[H _]|[_ [H|H]]]; discriminate.
    + assert ((if JS.includes (partType p) "door"
               then if isFlight p then Identity
                    else if doorOpen p then Identity else Identity
               else Identity) = Identity) as E.
      { destruct (JS.includes (partType p) "door"), (isFlight p), (doorOpen p);
          reflexivity. }
      split.
      * intros _ [[H _]|[[H|H] _]]; contradiction.
      * intros _. exact E.
Qed.

(** X23.  The two doors move as mirror images: for the same flags and
    time, the right door gets a secondary rotation exactly when the left
    one does, of the same kind, about the z axis only and by the opposite
    angle. *)
Theorem doors_mirror (Math_sin : Q -> Q) (l r : Props) :
  partType l = "door_left" -> partType r = "door_right" ->
  isFlight l = isFlight r -> doorOpen l = doorOpen r -> time l = time r ->
  isFlap (dynamicMotion Math_sin l) = isFlap (dynamicMotion Math_sin r) /\
  isScissorOpen (dynamicMotion Math_sin l)
  = isScissorOpen (dynamicMotion Math_sin r) /\
  match motionEuler (dynamicMotion Math_sin l),
        motionEuler (dynamicMotion Math_sin r) with
  | Some el, Some er =>
    ex el = 0 /\ ey el = 0 /\ ex er = 0 /\ ey er = 0 /\ ez er == - ez el
  | None, None => True
  | _, _ => False
  end.
Proof.
  intros L R F D T. unfold dynamicMotion. rewrite L, R, <- F, <- D, <- T.
  cbn [String.eqb Ascii.eqb Bool.eqb JS.includes String.index String.prefix
       String.length andb negb].
  destruct (isFlight l); [|destruct (doorOpen l)];
    cbn [isFlap isScissorOpen motionEuler ex ey ez];
    repeat split; try reflexivity.
  cbn [ez]. unfold Qdiv. ring.
Qed.

Lemma doors_mirror_witness :
  isFlap (dynamicMotion circleSin (door_left false true false 0.3))
  = isFlap (dynamicMotion circleSin (door_right false true false 0.3)).
Proof.
  apply (doors_mirror circleSin (door_left false true false 0.3)
                      (door_right false true false 0.3));
    reflexivity.
Defined.

(** X24.  Every part of the assembly rendered from an App state targets
    the pose entry of that state's mode: the car entry in car mode, the
    robot entry in robot mode, and in flight mode the flight entry, or
    the car entry where a flight entry is missing. *)
Theorem assembly_targets_mode_pose
        (s : App.State) (r : VehicleController.Refs) (now : Q) (p : Props) :
  In p (CarAssembly (VehicleController.render s r now)) ->
  targetP p = fromArray (fst (poseFor (App.mode s) p)) /\
  baseEuler p = eulerOf (snd (poseFor (App.mode s) p)).
Proof.
  intros Hin. destruct (CarAssembly_flags _ _ Hin) as [HR HF].
  cbn [VehicleController.render Types.isRobot Types.isFlight] in HR, HF.
  unfold targetP, baseEuler, poseFor. rewrite HR, HF.
  destruct (App.mode s); split; reflexivity.
Qed.

Lemma assembly_targets_mode_pose_witness :
  targetP (head true false false) = mkVector3 0 5.5 0.
Proof.
  apply (assembly_targets_mode_pose (App.mkState App.robot false)
           VehicleController.initialRefs 0 (head true false false)).
  simpl. do 3 right. left. reflexivity.
Defined.

End MotionExtras.

(** ** Particle layout and shader *)

Section SparkleExtras.
Import Sparkles.

Lemma or_defined (a b : Q) :
  or_ (Some a) (Some b) = Some (if Qeq_bool a 0 then b else a).
Proof. unfold or_. destruct (Qeq_bool a 0); reflexivity. Qed.

Lemma fallback_pos (a b : Q) :
  0 <= a -> 0 < b -> 0 < (if Qeq_bool a 0 then b else a).
Proof.
  intros Ha Hb. destruct (Qeq_bool a 0) eqn:E.
  - exact Hb.
  - apply Qeq_bool_neq in E. destruct (Qle_lt_or_eq _ _ Ha) as [?|Z].
    + assumption.
    + exfalso. apply E. symmetry. exact Z.
Qed.

Lemma roundHalfEven_nonneg (num den : Z) :
  (0 <= num)%Z -> (0 < den)%Z -> (0 <= Double.roundHalfEven num den)%Z.
Proof.
  intros Hn Hd. unfold Double.roundHalfEven.
  pose proof (Z.div_pos num den Hn Hd) as M.
  destruct (2 * (num mod den) ?= den)%Z; [|lia|lia].
  destruct (Z.even (num / den)); lia.
Qed.

Lemma nearest_nonneg (n d : positive) : 0 <= Double.nearest n d.
Proof.
  unfold Double.nearest. apply Qmult_le_0_compat.
  - change 0 with (inject_Z 0). rewrite <- Zle_Qle.
    destruct (Z.leb_spec 0 (Double.ilog2 n d - 52)) as [E|E];
      apply roundHalfEven_nonneg.
    + lia.
    + apply Z.mul_pos_pos; [lia|]. apply Z.pow_pos_nonneg; lia.
    + apply Z.mul_nonneg_nonneg; [lia|]. apply Z.pow_nonneg. lia.
    + lia.
  - apply Qpower_0_le. lra.
Qed.

(** Rounding to the nearest double keeps a number non-negative. *)
Lemma round_nonneg (q : Q) : 0 <= q -> 0 <= Double.round q.
Proof.
  intros H. unfold Double.round. destruct q as [[|n|n] d]; cbn [Qnum Qden].
  - lra.
  - apply nearest_nonneg.
  - exfalso. unfold Qle in H. simpl in H. lia.
Qed.

(** X25.  For [dims] with at least three non-negative entries the particle
    count is a number, at least 150: the floor of the product
    [dims[0] * dims[1] * depth * 800], computed in doubles, plus 150,
    where [depth] is the third entry, or the first when the third is 0;
    [positions] gets three times as many entries as [randomScales], and
    the loop fills every one. *)
Theorem particle_count_of_box (d0 d1 d2 : Q) (rest : list Q) :
  0 <= d0 -> 0 <= d1 -> 0 <= d2 ->
  let a0 := Double.round d0 in
  let a1 := Double.round d1 in
  let a2 := Double.round d2 in
  let depth := if Qeq_bool a2 0 then a0 else a2 in
  let product :=
    Double.round (Double.round (Double.round (a0 * a1) * depth) * 800) in
  let n := (Qfloor product + 150)%Z in
  count (d0 :: d1 :: d2 :: rest) = Some n /\
  (150 <= n)%Z /\
  bufferLengths (d0 :: d1 :: d2 :: rest) = Some ((3 * Z.to_nat n)%nat, Z.to_nat n) /\
  iterations (count (d0 :: d1 :: d2 :: rest)) = Z.to_nat n.
Proof.
  intros H0 H1 H2 a0 a1 a2 depth product n.
  assert (count (d0 :: d1 :: d2 :: rest) = Some n) as C.
  { unfold count, at_. cbn [nth_error double fmul mul].
    rewrite or_defined. reflexivity. }
  assert (150 <= n)%Z as N.
  { assert (0 <= a0) as A0 by (apply round_nonneg; exact H0).
    assert (0 <= a1) as A1 by (apply round_nonneg; exact H1).
    assert (0 <= a2) as A2 by (apply round_nonneg; exact H2).
    assert (0 <= depth) as D by (unfold depth; destruct (Qeq_bool a2 0); assumption).
    assert (0 <= product) as P.
    { unfold product. apply round_nonneg.
      apply Qmult_le_0_compat; [|lra]. apply round_nonneg.
      apply Qmult_le_0_compat; [|exact D]. apply round_nonneg.
      apply Qmult_le_0_compat; assumption. }
    apply Qfloor_resp_le in P. change (Qfloor 0) with 0%Z in P.
    unfold n. lia. }
  split; [exact C|]. split; [exact N|]. split.
  - unfold bufferLengths. rewrite C. cbn [times3 Float32Array_length].
    destruct (Z.ltb_spec (n * 3) 0); [lia|].
    destruct (Z.ltb_spec n 0); [lia|].
    f_equal. f_equal. lia.
  - rewrite C. reflexivity.
Qed.

Lemma particle_count_of_box_witness :
  count [0.8; 2.8; 1.0] = Some 1941%Z /\
  count [0.25; 0.35; 0.2] = Some 163%Z /\
  count [2.4; 1.4; 1.2] = Some 3375%Z.
Proof.
  assert (0 <= 0.8 /\ 0 <= 2.8 /\ 0 <= 1.0 /\ 0 <= 0.25 /\ 0 <= 0.35 /\
          0 <= 0.2 /\ 0 <= 2.4 /\ 0 <= 1.4 /\ 0 <= 1.2)
    as [P1 [P2 [P3 [P4 [P5 [P6 [P7 [P8 P9]]]]]]]]
    by (repeat split; vm_compute; discriminate).
  split; [|split].
  - rewrite (proj1 (particle_count_of_box 0.8 2.8 1.0 [] P1 P2 P3)).
    vm_compute. reflexivity.
  - rewrite (proj1 (particle_count_of_box 0.25 0.35 0.2 [] P4 P5 P6)).
    vm_compute. reflexivity.
  - rewrite (proj1 (particle_count_of_box 2.4 1.4 1.2 [] P7 P8 P9)).
    vm_compute. reflexivity.
Defined.

(** X26.  For [dims] with a single entry, as the sphere of the driver's
    head is given, [dims[1]] is undefined, the count is NaN, both arrays
    are created empty and the loop does not run: the part has no
    particles.  The same holds for empty [dims]. *)
Theorem single_entry_dims_have_no_particles (d0 : Q) :
  count [d0] = None /\
  bufferLengths [d0] = Some (0%nat, 0%nat) /\
  iterations (count [d0]) = 0%nat /\
  count [] = None /\
  bufferLengths [] = Some (0%nat, 0%nat).
Proof. repeat split. Qed.

(** X27.  If the runtime's sine and cosine satisfy [sin^2 + cos^2 = 1],
    then for [dims] with at least two entries, the first non-negative, and
    random draws in [0, 1), a particle lies within the cylinder around
    the y axis of radius [dims[0] / 2] and half height
    [|dims[1] || dims[0]| / 2]. *)
Theorem particle_within_cylinder
        (Math_sin Math_cos : Q -> Q) (d0 d1 : Q) (rest : list Q)
        (u_theta u_r u_h : Q) :
  (forall t, Math_sin t * Math_sin t + Math_cos t * Math_cos t == 1) ->
  0 <= d0 -> 0 <= u_r < 1 -> 0 <= u_h < 1 ->
  exists px py pz,
    particle Math_sin Math_cos (d0 :: d1 :: rest) u_theta u_r u_h
    = (Some px, Some py, Some pz) /\
    px * px + pz * pz <= (d0 * 0.5) * (d0 * 0.5) /\
    Qabs py <= 0.5 * Qabs (if Qeq_bool d1 0 then d0 else d1).
Proof.
  intros Htrig H0 [Hr0 Hr1] [Hh0 Hh1].
  unfold particle, at_. cbn [nth_error mul]. rewrite or_defined. cbn [mul].
  do 3 eexists. split; [reflexivity|]. split.
  - set (th := u_theta * JS.Math_PI * 2).
    pose proof (Htrig th) as T.
    set (r := u_r * d0 * 0.5).
    assert (r * Math_sin th * (r * Math_sin th)
            + r * Math_cos th * (r * Math_cos th)
            == (Math_sin th * Math_sin th + Math_cos th * Math_cos th) * (r * r))
      as -> by ring.
    rewrite T.
    assert (0 <= r) as R0.
    { unfold r. repeat apply Qmult_le_0_compat; lra. }
    assert (r <= d0 * 0.5) as R1.
    { unfold r. assert (0 <= (1 - u_r) * d0) by (apply Qmult_le_0_compat; lra).
      lra. }
    assert (0 <= (d0 * 0.5 - r) * (d0 * 0.5 + r))
      by (apply Qmult_le_0_compat; lra).
    lra.
  - rewrite Qabs_Qmult.
    assert (Qabs (u_h - 0.5) <= 0.5) as A
      by (apply Qabs_Qle_condition; split; lra).
    pose proof (Qabs_nonneg (if Qeq_bool d1 0 then d0 else d1)) as B.
    apply Qmult_le_compat_r; assumption.
Qed.

Lemma particle_within_cylinder_witness :
  exists px py pz,
    particle Session.circleSin Session.circleCos [0.48; 0.48; 0.35] 0.3 0.9 0.1
    = (Some px, Some py, Some pz) /\
    px * px + pz * pz <= (0.48 * 0.5) * (0.48 * 0.5) /\
    Qabs py <= 0.5 * Qabs (if Qeq_bool 0.48 0 then 0.48 else 0.48).
Proof.
  apply (particle_within_cylinder Session.circleSin Session.circleCos
           0.48 0.48 [0.35] 0.3 0.9 0.1).
  - apply circle_identity.
  - vm_compute. discriminate.
  - split; vm_compute; [discriminate | reflexivity].
  - split; vm_compute; [discriminate | reflexivity].
Defined.

End SparkleExtras.

Section ShaderExtras.
Import SparkleMaterial.

(** X28.  If the sine stays within [-1, 1], the twinkle factor lies in
    [0, 1] and the particle's alpha in [0.6, 1]; and for a point in front
    of the camera ([mvPosition.z < 0]) with positive size and pixel ratio,
    the point size lies between the untwinkled size
    [size * pixelRatio * 30 / -z] and twice that. *)
Theorem twinkle_bounds (sin : Q -> Q) (size pixelRatio time randomScale mvz : Q) :
  (forall t, -1 <= sin t <= 1) ->
  0 <= twinkle sin time randomScale <= 1 /\
  0.6 <= vAlpha sin time randomScale <= 1 /\
  (0 < size -> 0 < pixelRatio -> mvz < 0 ->
   let base := size * pixelRatio * (30.0 / - mvz) in
   base <= pointSize sin size pixelRatio time randomScale mvz <= 2 * base).
Proof.
  intros Hsin.
  pose proof (Hsin (time * 5.0 + randomScale * 10.0)) as [L U].
  assert (0 <= twinkle sin time randomScale <= 1) as [T0 T1]
    by (unfold twinkle; split; lra).
  split; [split; assumption|]. split.
  - unfold vAlpha. split; lra.
  - intros Hs Hp Hz base. unfold pointSize.
    set (tw := twinkle sin time randomScale) in *.
    assert (0 < 30.0 / - mvz) as D.
    { apply Qlt_shift_div_l; lra. }
    assert (0 < size * pixelRatio) as SP by (apply Qmult_lt_0_compat; assumption).
    assert (0 < base) as B by (unfold base; apply Qmult_lt_0_compat; assumption).
    assert (size * pixelRatio * (1.0 + tw) * (30.0 / - mvz)
            == base + tw * base) as -> by (unfold base; ring).
    assert (0 <= tw * base) by (apply Qmult_le_0_compat; lra).
    assert (0 <= (1 - tw) * base) by (apply Qmult_le_0_compat; lra).
    split; lra.
Qed.

Lemma twinkle_bounds_witness :
  0.6 <= vAlpha Session.circleSin 1 0.5 <= 1.
Proof.
  exact (proj1 (proj2 (twinkle_bounds Session.circleSin 5 1 1 0.5 (-10)
                                      circleSin_bounded))).
Defined.

End ShaderExtras.
